(** * Hedra front-end: the retrying request executor and the chunked file reader

    A shallow embedding of two utilities of the repository:

    - [retry] (the Gemini service module): runs an asynchronous operation,
      classifies a failure by substring matching on the lower-cased
      stringified error, and either fails fast, or sleeps and tries again
      with a doubled delay;
    - [readFileChunked] and [fileToBase64] (the application shell): turn a
      local file into a base64 payload, the former in 1 MiB reads with a
      progress callback.

    JavaScript strings are modelled as byte strings (the UTF-8 encoding of
    the text); every marker the code searches for is ASCII, so searching the
    bytes and searching the UTF-16 code units agree. *)

From Stdlib Require Import ZArith NArith List Bool Lia.
From Stdlib.Strings Require Import Ascii String Byte.
From Stdlib Require Import DecimalString.
Import ListNotations.

Set Warnings "-register-all".

Local Open Scope Z_scope.
Local Open Scope string_scope.

(* ================================================================= *)
(** ** JavaScript string primitives used by the code *)

Module Js.

(** [needle] occurs in [hay] at some position: [hay.includes(needle)]. *)
Fixpoint includes (hay needle : string) : bool :=
  String.prefix needle hay ||
  match hay with
  | EmptyString => false
  | String _ rest => includes rest needle
  end.

(** Lower-casing restricted to the letters A-Z.  It agrees with
    [String.prototype.toLowerCase] on ASCII text and is the instance used
    for the concrete runs below; the executor itself is parametrised by
    the platform's lower-casing function. *)
Definition lowerAscii (c : ascii) : ascii :=
  let n := N_of_ascii c in
  if ((65 <=? n) && (n <=? 90))%N then ascii_of_N (n + 32) else c.

Fixpoint asciiLower (s : string) : string :=
  match s with
  | EmptyString => EmptyString
  | String c rest => String (lowerAscii c) (asciiLower rest)
  end.

(** Decimal rendering of an integer, as [String(n)] gives it for a BigInt,
    and for a Number that holds an integer below 10^21 in absolute
    value. *)
Definition decimal (z : Z) : string := NilZero.string_of_int (Z.to_int z).

(** A completion: the normal value of an expression, or the value it
    throws. *)
Inductive Completion (E A : Type) : Type :=
| Normal (a : A)
| Abrupt (e : E).
Arguments Normal {E A} a.
Arguments Abrupt {E A} e.

End Js.

(* ================================================================= *)
(** ** Values an operation can throw *)

(** Data that is not an [Error] instance.  Numbers are the integers
    (a Number or a BigInt holding one); an object lists its own enumerable
    string-keyed properties in enumeration order.  The values are finite
    trees: an object with a cycle, a [toJSON] method or a getter is
    outside this type. *)
Inductive JsData : Type :=
| JUndefined
| JNull
| JBool (b : bool)
| JNum (n : Z)
| JBigInt (n : Z)
| JString (s : string)
| JSymbol (description : string)
| JArray (items : list JsData)
| JObject (props : list (string * JsData)).

(** What a [catch] clause can receive: an [Error] instance, with the
    [name] and [message] it carries, or any other value. *)
Inductive JsValue : Type :=
| JError (name message : string)
| JOther (d : JsData).

Definition TypeError (message : string) : JsValue := JError "TypeError" message.

(** The three error classes of the service module that [retry] raises.
    Each constructor sets [name] and passes the message on to [Error]. *)
Definition FileTooLargeError (message : string) : JsValue :=
  JError "FileTooLargeError" message.
Definition UnsupportedFormatError (message : string) : JsValue :=
  JError "UnsupportedFormatError" message.
Definition QuotaExceededError (message : string) : JsValue :=
  JError "QuotaExceededError" message.

(** How a promise settles: fulfilled with a value, or rejected with a
    reason. *)
Inductive Outcome (T : Type) : Type :=
| Resolved (t : T)
| Rejected (e : JsValue).
Arguments Resolved {T} t.
Arguments Rejected {T} e.

Module Json.

Import Js.

Definition hexDigit (n : N) : ascii :=
  if (n <? 10)%N then ascii_of_N (48 + n) else ascii_of_N (87 + n).

(** One character of a JSON string literal: the quote, the backslash and
    the control characters are escaped, all else is kept. *)
Definition escapeChar (c : ascii) : string :=
  let n := N_of_ascii c in
  if (n =? 34)%N then "\" ++ String c EmptyString
  else if (n =? 92)%N then "\\"
  else if (n =? 8)%N then "\b"
  else if (n =? 12)%N then "\f"
  else if (n =? 10)%N then "\n"
  else if (n =? 13)%N then "\r"
  else if (n =? 9)%N then "\t"
  else if (n <? 32)%N then
    "\u00" ++ String (hexDigit (n / 16)) (String (hexDigit (n mod 16)) EmptyString)
  else String c EmptyString.

Fixpoint escape (s : string) : string :=
  match s with
  | EmptyString => EmptyString
  | String c rest => escapeChar c ++ escape rest
  end.

Definition quote (s : string) : string :=
  String (ascii_of_N 34) (escape s) ++ String (ascii_of_N 34) EmptyString.

Fixpoint join (sep : string) (parts : list string) : string :=
  match parts with
  | [] => EmptyString
  | [p] => p
  | p :: rest => p ++ sep ++ join sep rest
  end.

Definition bigIntMessage : string := "Do not know how to serialize a BigInt".

(** [JSON.stringify]'s serialisation of one value: [Normal None] is the
    [undefined] it yields for a value with no JSON form, which an array
    writes as [null] and an object leaves out; a BigInt anywhere makes the
    whole call throw a [TypeError]. *)
Fixpoint serialize (d : JsData) : Completion JsValue (option string) :=
  match d with
  | JUndefined => Normal None
  | JSymbol _ => Normal None
  | JNull => Normal (Some "null")
  | JBool true => Normal (Some "true")
  | JBool false => Normal (Some "false")
  | JNum n => Normal (Some (decimal n))
  | JBigInt _ => Abrupt (TypeError bigIntMessage)
  | JString s => Normal (Some (quote s))
  | JArray items =>
      let fix elements (l : list JsData) : Completion JsValue (list string) :=
        match l with
        | [] => Normal []
        | x :: rest =>
            match serialize x with
            | Abrupt e => Abrupt e
            | Normal o =>
                match elements rest with
                | Abrupt e => Abrupt e
                | Normal parts =>
                    Normal (match o with Some t => t | None => "null" end :: parts)
                end
            end
        end in
      match elements items with
      | Abrupt e => Abrupt e
      | Normal parts => Normal (Some ("[" ++ join "," parts ++ "]"))
      end
  | JObject props =>
      let fix members (l : list (string * JsData))
          : Completion JsValue (list string) :=
        match l with
        | [] => Normal []
        | (k, x) :: rest =>
            match serialize x with
            | Abrupt e => Abrupt e
            | Normal o =>
                match members rest with
                | Abrupt e => Abrupt e
                | Normal parts =>
                    Normal (match o with
                            | Some t => (quote k ++ ":" ++ t) :: parts
                            | None => parts
                            end)
                end
            end
        end in
      match members props with
      | Abrupt e => Abrupt e
      | Normal parts => Normal (Some ("{" ++ join "," parts ++ "}"))
      end
  end.

Definition stringify (d : JsData) : Completion JsValue (option string) :=
  serialize d.

(** A BigInt occurs in the value. *)
Fixpoint holdsBigInt (d : JsData) : bool :=
  match d with
  | JBigInt _ => true
  | JArray items => existsb holdsBigInt items
  | JObject props => existsb (fun p => holdsBigInt (snd p)) props
  | _ => false
  end.

(** The thrown values that [JSON.stringify] is not asked to serialise a
    BigInt for: every [Error], every primitive, and the objects and arrays
    that hold no BigInt. *)
Definition stringifiable (err : JsValue) : bool :=
  match err with
  | JError _ _ => true
  | JOther ((JArray _ | JObject _) as d) => negb (holdsBigInt d)
  | JOther _ => true
  end.

End Json.


(* ================================================================= *)
(** ** The retrying request executor ([retry]) *)

Module Retry.

Import Js.

(** The wrapped operation [fn : () => Promise<T>].  It may answer
    differently each time it is called: [fn k] is how its call number [k]
    (counting from 0) settles.  An operation one of whose calls stays
    pending is outside this type: what is proved of a run is proved of
    the operations whose calls all settle. *)
Definition Operation (T : Type) : Type := nat -> Outcome T.

(** What a run of [retry] does, in order. *)
Inductive Event : Type :=
| Invoke (attempt : nat)      (* await fn() *)
| WarnQuota (delay : Z)       (* console.warn(`Quota limit hit, ...`) *)
| WarnRetry (retries : Z)     (* console.warn(`Retrying operation... `) *)
| Sleep (ms : Z).             (* await new Promise(r => setTimeout(r, delay)) *)

(** The classes of the specification's data model, for the branch taken. *)
Inductive ClassifiedError : Type :=
| PayloadTooLarge
| InvalidArgument
| QuotaExceeded
| Transient
| Unknown.

(** The four conditions of the [catch] clause, on the lower-cased text. *)
Definition payloadMarker (msg : string) : bool :=
  includes msg "413" || includes msg "payload too large".

Definition invalidMarker (msg : string) : bool :=
  includes msg "400" || includes msg "invalid argument".

Definition quotaMarker (msg : string) : bool :=
  includes msg "429" || includes msg "resource_exhausted" || includes msg "quota".

Definition transientMarker (msg : string) : bool :=
  includes msg "500" ||
  includes msg "503" ||
  includes msg "xhr error" ||
  includes msg "fetch failed" ||
  includes msg "timeout" ||
  includes msg "networkerror" ||
  includes msg "error code: 6" ||
  includes msg "rpc failed".

(** The branch of the [catch] clause that a text selects: the conditions
    are tried in the order of the source. *)
Definition classify (msg : string) : ClassifiedError :=
  if payloadMarker msg then PayloadTooLarge
  else if invalidMarker msg then InvalidArgument
  else if quotaMarker msg then QuotaExceeded
  else if transientMarker msg then Transient
  else Unknown.

Definition fileTooLargeText : string :=
  "حجم الملف يتجاوز الحد المسموح به للخادم.".
Definition unsupportedFormatText : string :=
  "تنسيق الملف غير صالح أو تالف.".
Definition quotaExceededText : string :=
  "لقد استهلكت رصيدك المجاني من Google Gemini API مؤقتاً. يرجى الانتظار دقيقة قبل المحاولة.".

Section Executor.

(** [String.prototype.toLowerCase] of the platform. *)
Variable toLowerCase : string -> string.

(** The first statements of the [catch] clause: the text [msg] that the
    markers are searched in.
    - [err instanceof Error]: the lower-cased [message];
    - [typeof err === 'object'] ([null], arrays and objects):
      [JSON.stringify(err).toLowerCase()], which throws when
      [JSON.stringify] throws, and also when it returns [undefined];
    - anything else: [String(err).toLowerCase()]. *)
Definition errorText (err : JsValue) : Completion JsValue string :=
  match err with
  | JError _ message => Normal (toLowerCase message)
  | JOther ((JNull | JArray _ | JObject _) as d) =>
      match Json.stringify d with
      | Abrupt e => Abrupt e
      | Normal (Some text) => Normal (toLowerCase text)
      | Normal None =>
          Abrupt (TypeError "Cannot read properties of undefined (reading 'toLowerCase')")
      end
  | JOther JUndefined => Normal (toLowerCase "undefined")
  | JOther (JBool true) => Normal (toLowerCase "true")
  | JOther (JBool false) => Normal (toLowerCase "false")
  | JOther (JNum n) => Normal (toLowerCase (decimal n))
  | JOther (JBigInt n) => Normal (toLowerCase (decimal n))
  | JOther (JString s) => Normal (toLowerCase s)
  | JOther (JSymbol description) =>
      Normal (toLowerCase ("Symbol(" ++ description ++ ")"))
  end.

Context {T : Type}.

(** A run: the events so far and, unless the fuel ran out, how the promise
    returned by [retry] settles. *)
Definition Run : Type := list Event * option (Outcome T).

Definition andThen (events : list Event) (rest : Run) : Run :=
  ((events ++ fst rest)%list, snd rest).

(** The body of [retry], one recursive call per unit of fuel.  [attempt]
    counts the calls of [fn] made so far. *)
Fixpoint retryFrom (fuel : nat) (fn : Operation T) (attempt : nat)
    (retries delay : Z) : Run :=
  match fuel with
  | O => ([], None)
  | S fuel' =>
      match fn attempt with
      | Resolved t => ([Invoke attempt], Some (Resolved t))
      | Rejected err =>
          match errorText err with
          | Abrupt e => ([Invoke attempt], Some (Rejected e))
          | Normal msg =>
              if payloadMarker msg then
                ([Invoke attempt], Some (Rejected (FileTooLargeError fileTooLargeText)))
              else if invalidMarker msg then
                ([Invoke attempt],
                 Some (Rejected (UnsupportedFormatError unsupportedFormatText)))
              else if quotaMarker msg then
                if retries >? 0 then
                  andThen [Invoke attempt; WarnQuota delay; Sleep delay]
                    (retryFrom fuel' fn (S attempt) (retries - 1) (delay * 2))
                else
                  ([Invoke attempt],
                   Some (Rejected (QuotaExceededError quotaExceededText)))
              else if (retries >? 0) && transientMarker msg then
                andThen [Invoke attempt; WarnRetry retries; Sleep delay]
                  (retryFrom fuel' fn (S attempt) (retries - 1) (delay * 2))
              else ([Invoke attempt], Some (Rejected err))
          end
      end
  end.

(** [retry(fn, retries, delay)].  A call recurses only while [retries > 0],
    with [retries - 1], so [Z.to_nat retries + 1] calls are always enough. *)
Definition retry (fn : Operation T) (retries delay : Z) : Run :=
  retryFrom (S (Z.to_nat retries)) fn 0%nat retries delay.

(** [retry(fn)]: the default parameters [retries = 3], [delay = 2000]. *)
Definition retryDefault (fn : Operation T) : Run := retry fn 3 2000.

(** Call number [k] of [fn] fails, and the text of what it throws selects
    the branch [c]. *)
Definition failsAs (fn : Operation T) (k : nat) (c : ClassifiedError) : Prop :=
  exists err msg,
    fn k = Rejected err /\
    errorText err = Normal msg /\
    classify msg = c.

Definition retryable (fn : Operation T) (k : nat) : Prop :=
  failsAs fn k QuotaExceeded \/ failsAs fn k Transient.

End Executor.

(** Observations on a run. *)
Fixpoint invocations (events : list Event) : nat :=
  match events with
  | [] => 0%nat
  | Invoke _ :: rest => S (invocations rest)
  | _ :: rest => invocations rest
  end.

Fixpoint sleeps (events : list Event) : list Z :=
  match events with
  | [] => []
  | Sleep ms :: rest => ms :: sleeps rest
  | _ :: rest => sleeps rest
  end.

(** The delays [delay, 2 delay, 4 delay, ...] of [n] successive retries. *)
Fixpoint backoff (n : nat) (delay : Z) : list Z :=
  match n with
  | O => []
  | S n' => delay :: backoff n' (delay * 2)
  end.

(** The run without its console warnings. *)
Fixpoint withoutWarnings (events : list Event) : list Event :=
  match events with
  | [] => []
  | WarnQuota _ :: rest => withoutWarnings rest
  | WarnRetry _ :: rest => withoutWarnings rest
  | e :: rest => e :: withoutWarnings rest
  end.

(** A call, then [k] times a sleep and a call, the sleeps doubling. *)
Fixpoint schedule (k : nat) (attempt : nat) (delay : Z) : list Event :=
  match k with
  | O => [Invoke attempt]
  | S k' => Invoke attempt :: Sleep delay :: schedule k' (S attempt) (delay * 2)
  end.

End Retry.

(* ================================================================= *)
(** ** Base64, as [window.btoa] and [FileReader.readAsDataURL] produce it *)

Module Base64.

Definition alphabet : string :=
  "ABCDEFGHIJKLMNOPQRSTUVWXYZabcdefghijklmnopqrstuvwxyz0123456789+/".

Definition pad : ascii := "="%char.

(** The character for a 6-bit group. *)
Definition encodeSextet (n : N) : ascii :=
  match String.get (N.to_nat n) alphabet with
  | Some c => c
  | None => pad
  end.

(** The 6-bit group of a character of the alphabet. *)
Definition decodeChar (c : ascii) : option N :=
  let n := N_of_ascii c in
  if ((65 <=? n) && (n <=? 90))%N then Some (n - 65)%N
  else if ((97 <=? n) && (n <=? 122))%N then Some (n - 71)%N
  else if ((48 <=? n) && (n <=? 57))%N then Some (n + 4)%N
  else if (n =? 43)%N then Some 62%N
  else if (n =? 47)%N then Some 63%N
  else None.

Definition code (c : ascii) : N := N_of_ascii c.

(** [btoa]: every three characters of a binary string (code units 0..255)
    give four characters; a last group of one or two is padded with "=". *)
Fixpoint btoa (binary : string) : string :=
  match binary with
  | EmptyString => EmptyString
  | String a EmptyString =>
      String (encodeSextet (code a / 4))
        (String (encodeSextet (code a mod 4 * 16))
           (String pad (String pad EmptyString)))
  | String a (String b EmptyString) =>
      String (encodeSextet (code a / 4))
        (String (encodeSextet (code a mod 4 * 16 + code b / 16))
           (String (encodeSextet (code b mod 16 * 4))
              (String pad EmptyString)))
  | String a (String b (String c rest)) =>
      String (encodeSextet (code a / 4))
        (String (encodeSextet (code a mod 4 * 16 + code b / 16))
           (String (encodeSextet (code b mod 16 * 4 + code c / 64))
              (String (encodeSextet (code c mod 64)) (btoa rest))))
  end%N.

(** [atob] on padded input: four characters give three code units, and a
    final group that ends in padding gives one or two.  The platform's
    [atob] also takes text without padding or with white space; here such
    text is refused, and the properties below use [atob] on the output of
    [btoa] only. *)
Fixpoint atob (text : string) : option string :=
  match text with
  | EmptyString => Some EmptyString
  | String c1 (String c2 (String c3 (String c4 rest))) =>
      match decodeChar c1, decodeChar c2 with
      | Some s1, Some s2 =>
          let a := ascii_of_N (s1 * 4 + s2 / 16) in
          if Ascii.eqb c3 pad then
            match Ascii.eqb c4 pad, rest with
            | true, EmptyString => Some (String a EmptyString)
            | _, _ => None
            end
          else
            match decodeChar c3 with
            | Some s3 =>
                let b := ascii_of_N (s2 mod 16 * 16 + s3 / 4) in
                if Ascii.eqb c4 pad then
                  match rest with
                  | EmptyString => Some (String a (String b EmptyString))
                  | _ => None
                  end
                else
                  match decodeChar c4, atob rest with
                  | Some s4, Some tail =>
                      let c := ascii_of_N (s3 mod 4 * 64 + s4) in
                      Some (String a (String b (String c tail)))
                  | _, _ => None
                  end
            | None => None
            end
      | _, _ => None
      end
  | _ => None
  end%N.

(** The bytes a base64 text stands for. *)
Definition decode (text : string) : option (list byte) :=
  option_map list_byte_of_string (atob text).

Ltac div_lia := zify; Z.to_euclidean_division_equations; lia.

End Base64.

(* ================================================================= *)
(** ** The file readers of the application shell *)

Module Shell.

Import Js.

Local Open Scope Z_scope.

(** A local file: its bytes and its media type ([file.type], of the form
    type/subtype, possibly empty). *)
Record File : Type := {
  bytes : list byte;
  type : string
}.

Definition size (file : File) : Z := Z.of_nat (List.length (bytes file)).

(** [file.slice(start, stop)] for [0 <= start]: the bytes from [start] up
    to, not including, [stop], both cut off at the end of the file. *)
Definition slice (file : File) (start stop : Z) : list byte :=
  firstn (Z.to_nat (stop - start)) (skipn (Z.to_nat start) (bytes file)).

(** [bytes.subarray(start, stop)] on a [Uint8Array], for [0 <= start]. *)
Definition subarray (buffer : list byte) (start stop : Z) : list byte :=
  firstn (Z.to_nat (stop - start)) (skipn (Z.to_nat start) buffer).

(** Which reads fail: [faults k] is the error event that the [FileReader]
    fires for read number [k], when that read fails. *)
Definition Faults : Type := Z -> option JsValue.

Definition noFaults : Faults := fun _ => None.

Definition MAX_FILE_SIZE : Z := 9 * 1024 * 1024.
Definition CHUNK_THRESHOLD : Z := 2 * 1024 * 1024.

Definition chunkSize : Z := 1024 * 1024.
Definition B64_CHUNK : Z := 0x8000.

(** A value passed to the progress callback. *)
Inductive Percent : Type :=
| Finite (n : Z)
| Infinite.

(** [Math.ceil(file.size / chunkSize)]. *)
Definition chunkCount (file : File) : Z := (size file + chunkSize - 1) / chunkSize.

(** [Math.round((currentChunk / chunks) * 40)] for [currentChunk >= 1] and
    [chunks >= 0], in exact arithmetic: [Math.round] takes the integer
    nearest to its argument, a half going up, which for [40 c / n] is the
    floor of [(80 c + n) / (2 n)]; dividing by [chunks = 0] gives
    [Infinity], which [Math.round] returns as it is.  The double
    computation can differ from the exact one only where [40 c / n] lies
    exactly half-way between two integers and [c / n] is not a binary
    fraction, which needs [n] to be a multiple of 16 that is not a power
    of two, hence at least 48. *)
Definition percent (currentChunk chunks : Z) : Percent :=
  if chunks =? 0 then Infinite
  else Finite ((80 * currentChunk + chunks) / (2 * chunks)).

(** What a run of [readFileChunked] does, in order. *)
Inductive Event : Type :=
| ReadBlob (start stop : Z)   (* reader.readAsArrayBuffer(file.slice(start, end)) *)
| Report (p : Percent)        (* onProgress(percent) *)
| Yield.                      (* setTimeout(readNextChunk, 0) *)

Definition Run : Type := list Event * option (Outcome string).

Definition andThen (events : list Event) (rest : Run) : Run :=
  ((events ++ fst rest)%list, snd rest).

(** [fullBuffer.set(part, offset)], for [offset + part.length] within the
    buffer. *)
Definition set (buffer part : list byte) (offset : nat) : list byte :=
  (firstn offset buffer ++ part ++ skipn (offset + List.length part) buffer)%list.

(** The loop that copies the parts into the buffer one after the other. *)
Fixpoint copyParts (parts : list (list byte)) (fullBuffer : list byte)
    (offset : nat) : list byte :=
  match parts with
  | [] => fullBuffer
  | part :: rest =>
      copyParts rest (set fullBuffer part offset) (offset + List.length part)
  end.

(** "Combine chunks": a zero-filled buffer of the total length, filled by
    [copyParts]. *)
Definition combine (resultParts : list (list byte)) : list byte :=
  let totalLen := fold_left (fun acc b => (acc + List.length b)%nat) resultParts 0%nat in
  copyParts resultParts (repeat x00 totalLen) 0.

(** [String.fromCharCode.apply(null, Array.from(window))]. *)
Definition fromCharCode (window : list byte) : string :=
  string_of_list_byte window.

(** The loop [for (let i = 0; i < len; i += B64_CHUNK)] that builds the
    binary string, one iteration per unit of fuel. *)
Fixpoint binaryFrom (fuel : nat) (buffer : list byte) (i : Z) (binary : string)
    : string :=
  match fuel with
  | O => binary
  | S fuel' =>
      if i <? Z.of_nat (List.length buffer) then
        binaryFrom fuel' buffer (i + B64_CHUNK)
          (binary ++ fromCharCode (subarray buffer i (i + B64_CHUNK)))
      else binary
  end.

(** "Convert to Base64": the loop runs at most once per byte. *)
Definition toBase64 (fullBuffer : list byte) : string :=
  Base64.btoa (binaryFrom (List.length fullBuffer) fullBuffer 0 EmptyString).

(** [readNextChunk] followed by the handler of the event it leads to, one
    read per unit of fuel.  A successful read fires [onload] with the
    [ArrayBuffer] of the blob (an object, hence truthy); a failed one fires
    [onerror], which is [reject]. *)
Fixpoint readFrom (fuel : nat) (file : File) (faults : Faults)
    (currentChunk : Z) (resultParts : list (list byte)) : Run :=
  match fuel with
  | O => ([], None)
  | S fuel' =>
      let chunks := chunkCount file in
      let start := currentChunk * chunkSize in
      let stop := Z.min (start + chunkSize) (size file) in
      let blob := slice file start stop in
      match faults currentChunk with
      | Some errorEvent => ([ReadBlob start stop], Some (Rejected errorEvent))
      | None =>
          let resultParts := (resultParts ++ [blob])%list in
          let currentChunk := currentChunk + 1 in
          let percent := percent currentChunk chunks in
          if currentChunk <? chunks then
            andThen [ReadBlob start stop; Report percent; Yield]
              (readFrom fuel' file faults currentChunk resultParts)
          else
            ([ReadBlob start stop; Report percent],
             Some (Resolved (toBase64 (combine resultParts))))
      end
  end.

(** [readFileChunked(file, onProgress)]: the calls of [onProgress] are the
    [Report] events of the run. *)
Definition readFileChunked (file : File) (faults : Faults) : Run :=
  readFrom (S (Z.to_nat (chunkCount file))) file faults 0 [].

(** The values passed to [onProgress], in order. *)
Fixpoint reports (events : list Event) : list Percent :=
  match events with
  | [] => []
  | Report p :: rest => p :: reports rest
  | _ :: rest => reports rest
  end.

(** The number of reads started. *)
Fixpoint readCount (events : list Event) : nat :=
  match events with
  | [] => 0%nat
  | ReadBlob _ _ :: rest => S (readCount rest)
  | _ :: rest => readCount rest
  end.

(** [text.split(",")]. *)
Fixpoint split (text : string) : list string :=
  match text with
  | EmptyString => [EmptyString]
  | String c rest =>
      if Ascii.eqb c ","%char then EmptyString :: split rest
      else
        match split rest with
        | piece :: pieces => String c piece :: pieces
        | [] => [String c EmptyString]
        end
  end.

(** The result of [reader.readAsDataURL(file)]: a [data:] URL with the
    media type of the file ([application/octet-stream] when it has none)
    and the base64 of its bytes. *)
Definition dataURL (file : File) : string :=
  "data:" ++
  (if String.eqb (type file) EmptyString then "application/octet-stream"
   else type file) ++
  ";base64," ++ Base64.btoa (string_of_list_byte (bytes file)).

(** [fileToBase64(file)]: one read of the whole file; the promise resolves
    with [reader.result.split(',')[1]], which is [undefined] ([None]) when
    the result has no comma. *)
Definition fileToBase64 (file : File) (faults : Faults) : Outcome (option string) :=
  match faults 0 with
  | Some errorEvent => Rejected errorEvent
  | None => Resolved (nth_error (split (dataURL file)) 1)
  end.

(** The choice of reader in [processFile]: "Use Chunked Reading for files
    > 2MB". *)
Definition base64Data (file : File) (faults : Faults) : option (Outcome (option string)) :=
  if size file >? CHUNK_THRESHOLD then
    match snd (readFileChunked file faults) with
    | Some (Resolved text) => Some (Resolved (Some text))
    | Some (Rejected e) => Some (Rejected e)
    | None => None
    end
  else Some (fileToBase64 file faults).

(** *** Notions used to state the properties *)

(** The number of reads of a run without failure: one per chunk, and one
    for the empty file. *)
Definition readsNeeded (file : File) : Z := Z.max 1 (chunkCount file).

(** The values reported from chunk [k] on. *)
Definition reportsFrom (file : File) (k : Z) : list Percent :=
  map (fun i => percent (k + 1 + Z.of_nat i) (chunkCount file))
    (seq 0 (Z.to_nat (Z.max 1 (chunkCount file - k)))).

(** The order of the reported values; [Infinity] is above every number. *)
Definition percentLe (p q : Percent) : Prop :=
  match p, q with
  | Finite a, Finite b => a <= b
  | _, Infinite => True
  | Infinite, Finite _ => False
  end.

Definition percentLt (p q : Percent) : Prop :=
  match p, q with
  | Finite a, Finite b => a < b
  | Finite _, Infinite => True
  | Infinite, _ => False
  end.

Definition succeeds (file : File) (faults : Faults) : Prop :=
  forall k, 0 <= k < readsNeeded file -> faults k = None.

(** Whether a text holds a comma. *)
Fixpoint hasComma (text : string) : bool :=
  match text with
  | EmptyString => false
  | String c rest => Ascii.eqb c ","%char || hasComma rest
  end.

End Shell.

(* ================================================================= *)
(** ** Concrete inputs *)

Module Samples.

Import Js Retry Shell.

Definition serviceUnavailable : JsValue := JError "Error" "503 Service Unavailable".

Definition tooManyRequests : JsValue :=
  JError "ApiError" "got status: 429 Too Many Requests. Quota exceeded.".

Definition oversized : JsValue :=
  JOther (JObject [("status", JNum 413); ("statusText", JString "Payload Too Large")]).

(** A quota failure whose text also holds "400". *)
Definition quotaOf400 : JsValue :=
  JError "ApiError" "429 Too Many Requests: quota of 400 requests per day exceeded".

(** A timeout whose text also holds "400". *)
Definition timeoutAfter4000 : JsValue :=
  JError "Error" "Request timeout after 4000 ms".

Definition always (err : JsValue) : Operation unit := fun _ => Rejected err.

Definition greeting : File :=
  {| bytes := list_byte_of_string "Hello, world"; type := "text/plain" |}.

Definition emptyFile : File := {| bytes := []; type := EmptyString |}.

(** A file of 41 MiB of zeros. *)
Definition lecture41 : File :=
  {| bytes := repeat x00 (Z.to_nat 42991616); type := "audio/mpeg" |}.

Definition notReadable : JsValue :=
  JError "NotReadableError" "The requested file could not be read".

(** A file of 2 MiB and one byte, the smallest that [processFile] reads
    in chunks: three chunks. *)
Definition lecture3 : File :=
  {| bytes := repeat x00 (Z.to_nat 2097153); type := "audio/mpeg" |}.


End Samples.

(* ================================================================= *)
(** ** More string primitives *)

Module JsText.

Import Js.

Definition LF : ascii := ascii_of_N 10.

(** [text.startsWith(start)] and [text.endsWith(ending)]. *)
Definition startsWith (text start : string) : bool := String.prefix start text.

Definition endsWith (text ending : string) : bool :=
  String.eqb
    (String.substring (String.length text - String.length ending)
       (String.length ending) text)
    ending
  && (String.length ending <=? String.length text)%nat.

(** The text without its last [n] bytes. *)
Definition dropLast (n : nat) (text : string) : string :=
  String.substring 0 (String.length text - n) text.

Fixpoint reverse (text : string) : string :=
  match text with
  | EmptyString => EmptyString
  | String c rest => reverse rest ++ String c EmptyString
  end.

(** [text.trimStart()]: the white space and line terminators of
    ECMAScript, in their UTF-8 encoding: U+0009 to U+000D, U+0020,
    U+00A0, U+1680, U+2000 to U+200A, U+2028, U+2029, U+202F, U+205F,
    U+3000, U+FEFF. *)
Fixpoint trimStart (text : string) : string :=
  match text with
  | EmptyString => EmptyString
  | String c rest =>
      let n := N_of_ascii c in
      if (((9 <=? n) && (n <=? 13)) || (n =? 32))%N then trimStart rest
      else
        match rest with
        | String c2 rest2 =>
            let n2 := N_of_ascii c2 in
            if ((n =? 194) && (n2 =? 160))%N then trimStart rest2
            else
              match rest2 with
              | String c3 rest3 =>
                  let n3 := N_of_ascii c3 in
                  if (((n =? 225) && (n2 =? 154) && (n3 =? 128)) ||
                      ((n =? 226) && (n2 =? 128) &&
                       (((128 <=? n3) && (n3 <=? 138)) ||
                        (n3 =? 168) || (n3 =? 169) || (n3 =? 175))) ||
                      ((n =? 226) && (n2 =? 129) && (n3 =? 159)) ||
                      ((n =? 227) && (n2 =? 128) && (n3 =? 128)) ||
                      ((n =? 239) && (n2 =? 187) && (n3 =? 191)))%N
                  then trimStart rest3
                  else text
              | EmptyString => text
              end
        | EmptyString => text
        end
  end.

(** [text.trimEnd()], read from the end: the same code points, last byte
    first. *)
Fixpoint trimStartReversed (text : string) : string :=
  match text with
  | EmptyString => EmptyString
  | String c rest =>
      let n := N_of_ascii c in
      if (((9 <=? n) && (n <=? 13)) || (n =? 32))%N then trimStartReversed rest
      else
        match rest with
        | String c2 rest2 =>
            let n2 := N_of_ascii c2 in
            if ((n2 =? 194) && (n =? 160))%N then trimStartReversed rest2
            else
              match rest2 with
              | String c3 rest3 =>
                  let n3 := N_of_ascii c3 in
                  if (((n3 =? 225) && (n2 =? 154) && (n =? 128)) ||
                      ((n3 =? 226) && (n2 =? 128) &&
                       (((128 <=? n) && (n <=? 138)) ||
                        (n =? 168) || (n =? 169) || (n =? 175))) ||
                      ((n3 =? 226) && (n2 =? 129) && (n =? 159)) ||
                      ((n3 =? 227) && (n2 =? 128) && (n =? 128)) ||
                      ((n3 =? 239) && (n2 =? 187) && (n =? 191)))%N
                  then trimStartReversed rest3
                  else text
              | EmptyString => text
              end
        | EmptyString => text
        end
  end.

Definition trimEnd (text : string) : string :=
  reverse (trimStartReversed (reverse text)).

(** [text.trim()]. *)
Definition trim (text : string) : string := trimEnd (trimStart text).

(** [text.split(sep)] for a separator of one character. *)
Fixpoint splitOn (sep : ascii) (text : string) : list string :=
  match text with
  | EmptyString => [EmptyString]
  | String c rest =>
      if Ascii.eqb c sep then EmptyString :: splitOn sep rest
      else
        match splitOn sep rest with
        | piece :: pieces => String c piece :: pieces
        | [] => [String c EmptyString]
        end
  end.

(** Whether a text holds the character. *)
Fixpoint hasChar (sep : ascii) (text : string) : bool :=
  match text with
  | EmptyString => false
  | String c rest => Ascii.eqb c sep || hasChar sep rest
  end.

End JsText.

(* ================================================================= *)
(** ** The callers of [retry] in the Gemini service *)

Module Service.

Import Js Retry JsText.

Definition NetworkTimeoutError (message : string) : JsValue :=
  JError "NetworkTimeoutError" message.

(** [error instanceof C] for an error class [C]: an [Error] of the model
    carries the name of the class that built it. *)
Definition instanceOf (className : string) (error : JsValue) : bool :=
  match error with
  | JError name _ => String.eqb name className
  | JOther _ => false
  end.

Definition doubleQuote : string := String (ascii_of_N 34) EmptyString.

(** The two markers of raw JSON: the key [error] followed by a colon, and
    an opening brace followed by the key [code]. *)
Definition errorKeyMarker : string := doubleQuote ++ "error" ++ doubleQuote ++ ":".
Definition codeKeyMarker : string := "{" ++ doubleQuote ++ "code" ++ doubleQuote.

Definition networkFailureText : string :=
  "فشل الاتصال بالخادم. الشبكة ضعيفة أو الملف كبير جداً للمعالجة المباشرة.".
Definition apiErrorText : string :=
  "حدث خطأ تقني أثناء الاتصال بالخادم (API Error). يرجى المحاولة مرة أخرى.".
Definition processingFailedPrefix : string := "فشل المعالجة: ".
Definition unknownErrorText : string := "خطأ غير معروف".
Definition speechErrorText : string := "عذراً، مشكلة في خدمة الصوت.".

(** A call of [console.error]. *)
Inductive Log : Type :=
| ConsoleError (label : string) (error : JsValue).

(** The system instruction chosen for a transcription request. *)
Inductive Instruction : Type :=
| TRANSCRIPTION_SYSTEM_INSTRUCTION
| DOCUMENT_SYSTEM_INSTRUCTION.

(** The first lines of the operation that [transcribeAudio] retries: the
    media type sent to the model, and the instruction that goes with
    it. *)
Definition effectiveMimeType (mimeType : string) : string :=
  if String.eqb mimeType "audio/lrec" || includes mimeType "octet-stream"
  then "audio/mpeg" else mimeType.

Definition isAudio (mimeType : string) : bool :=
  let effectiveMimeType := effectiveMimeType mimeType in
  startsWith effectiveMimeType "audio/" || startsWith effectiveMimeType "video/".

Definition instruction (mimeType : string) : Instruction :=
  if isAudio mimeType then TRANSCRIPTION_SYSTEM_INSTRUCTION
  else DOCUMENT_SYSTEM_INSTRUCTION.

Section Wrappers.

Variable toLowerCase : string -> string.

(** The text [msg] of the [catch] clause of [transcribeAudio], before it
    is lower-cased; [JSON.stringify] may throw, and the [undefined] it may
    return has no [toLowerCase]. *)
Definition message (error : JsValue) : Completion JsValue string :=
  match error with
  | JError _ text => Normal text
  | JOther ((JNull | JArray _ | JObject _) as d) =>
      match Json.stringify d with
      | Abrupt e => Abrupt e
      | Normal (Some text) => Normal text
      | Normal None =>
          Abrupt (TypeError "Cannot read properties of undefined (reading 'toLowerCase')")
      end
  | JOther JUndefined => Normal "undefined"
  | JOther (JBool true) => Normal "true"
  | JOther (JBool false) => Normal "false"
  | JOther (JNum n) => Normal (decimal n)
  | JOther (JBigInt n) => Normal (decimal n)
  | JOther (JString s) => Normal s
  | JOther (JSymbol description) => Normal ("Symbol(" ++ description ++ ")")
  end.

(** The [catch] clause of [transcribeAudio]: what it logs and what it
    throws. *)
Definition transcribeAudioCatch (error : JsValue) : list Log * JsValue :=
  if instanceOf "QuotaExceededError" error ||
     instanceOf "FileTooLargeError" error ||
     instanceOf "UnsupportedFormatError" error ||
     instanceOf "NetworkTimeoutError" error
  then ([], error)
  else
    match message error with
    | Abrupt e => ([], e)
    | Normal msg =>
        let lowerMsg := toLowerCase msg in
        let logged :=
          if negb (includes lowerMsg "error code: 6") &&
             negb (includes lowerMsg "rpc failed")
          then [ConsoleError "Processing Error:" error] else [] in
        if includes lowerMsg "xhr" || includes lowerMsg "network" ||
           includes lowerMsg "error code: 6" || includes lowerMsg "rpc failed"
        then (logged, NetworkTimeoutError networkFailureText)
        else if includes lowerMsg errorKeyMarker || includes lowerMsg codeKeyMarker
        then (logged, JError "Error" apiErrorText)
        else
          (logged,
           JError "Error"
             (processingFailedPrefix ++
              match error with
              | JError _ text => text
              | JOther _ => unknownErrorText
              end))
    end.

(** The [catch] clause of [generateSpeech]. *)
Definition generateSpeechCatch (error : JsValue) : list Log * JsValue :=
  if instanceOf "QuotaExceededError" error then ([], error)
  else ([ConsoleError "TTS Error" error], JError "Error" speechErrorText).

Context {T : Type}.

(** A run of a wrapper: the events of [retry], the calls of
    [console.error], and how the promise settles. *)
Definition Wrapped : Type := list Event * list Log * option (Outcome T).

Definition guarded (run : list Event * option (Outcome T))
    (handler : JsValue -> list Log * JsValue) : Wrapped :=
  match snd run with
  | Some (Resolved t) => (fst run, [], Some (Resolved t))
  | Some (Rejected error) =>
      (fst run, fst (handler error), Some (Rejected (snd (handler error))))
  | None => (fst run, [], None)
  end.

(** [transcribeAudio]: [try { return await retry(operation, 5, 4000) }
    catch (error) { ... }], for the operation it builds. *)
Definition transcribeAudio (operation : Operation T) : Wrapped :=
  guarded (retry toLowerCase operation 5 4000) transcribeAudioCatch.

(** [generateSpeech]: [try { return await retry(operation) } catch (error)
    { ... }]. *)
Definition generateSpeech (operation : Operation T) : Wrapped :=
  guarded (retryDefault toLowerCase operation) generateSpeechCatch.

End Wrappers.

(** [cleanJson]: the text trimmed and, when it then starts with a fence of
    three backquotes, without the match of [/^```(json)?\n?/] and then
    without the match of [/\n?```$/]. *)
Definition fence : string := "```".

Definition dropOpeningFence (text : string) : string :=
  let afterFence := String.substring 3 (String.length text - 3) text in
  let afterJson :=
    if startsWith afterFence "json"
    then String.substring 4 (String.length afterFence - 4) afterFence
    else afterFence in
  match afterJson with
  | String c rest => if Ascii.eqb c LF then rest else afterJson
  | EmptyString => afterJson
  end.

Definition dropClosingFence (text : string) : string :=
  if endsWith text (String LF fence) then dropLast 4 text
  else if endsWith text fence then dropLast 3 text
  else text.

Definition cleanJson (text : string) : string :=
  let clean := trim text in
  if startsWith clean fence then dropClosingFence (dropOpeningFence clean)
  else clean.

(** The two helpers of [generateVideo]: [dataUrl.split(',')[1]] and
    [dataUrl.split(';')[0].split(':')[1]]; [None] is [undefined]. *)
Definition getBase64 (dataUrl : string) : option string :=
  nth_error (splitOn ","%char dataUrl) 1.

Definition getMimeType (dataUrl : string) : option string :=
  nth_error (splitOn ":"%char (nth 0 (splitOn ";"%char dataUrl) EmptyString)) 1.

(** *** Notions used to state the properties *)

(** The four classes that the [catch] clause of [transcribeAudio] passes
    on. *)
Definition ownClass (error : JsValue) : bool :=
  instanceOf "QuotaExceededError" error ||
  instanceOf "FileTooLargeError" error ||
  instanceOf "UnsupportedFormatError" error ||
  instanceOf "NetworkTimeoutError" error.

(** The texts that the service writes itself: the three of [retry] and
    the three of the [catch] clause of [transcribeAudio]. *)
Definition serviceTexts : list string :=
  [fileTooLargeText; unsupportedFormatText; quotaExceededText;
   networkFailureText; apiErrorText;
   processingFailedPrefix ++ unknownErrorText].

Definition errorClasses : list string :=
  ["QuotaExceededError"; "FileTooLargeError"; "UnsupportedFormatError";
   "NetworkTimeoutError"; "Error"].

End Service.

(* ================================================================= *)
(** ** The byte helpers of the live client *)

Module Live.

Import Js.

(** [LiveClient.arrayBufferToBase64]: one character per byte, then
    [btoa]. *)
Definition arrayBufferToBase64 (buffer : list byte) : string :=
  Base64.btoa
    (fold_left (fun binary b => binary ++ String (ascii_of_byte b) EmptyString)
       buffer EmptyString).

(** [LiveClient.base64ToArrayBuffer]: [atob], which throws on a text it
    cannot decode, then one byte per character. *)
Definition base64ToArrayBuffer (base64 : string) : Completion JsValue (list byte) :=
  match Base64.atob base64 with
  | None =>
      Abrupt (JError "InvalidCharacterError"
                "The string to be decoded is not correctly encoded.")
  | Some binaryString => Normal (map byte_of_ascii (list_ascii_of_string binaryString))
  end.

End Live.

(* ================================================================= *)
(** ** Type detection in [processFile] *)

Module Detection.

Import Js JsText Shell.

Local Open Scope Z_scope.

(** [byte.toString(16).toUpperCase().padStart(2, '0')]. *)
Definition hexDigit (n : N) : ascii :=
  if (n <? 10)%N then ascii_of_N (48 + n) else ascii_of_N (55 + n).

Definition hexByte (b : byte) : string :=
  let n := Byte.to_N b in
  String (hexDigit (n / 16)) (String (hexDigit (n mod 16)) EmptyString).

(** The value of a hexadecimal digit, digits above 9 in upper case. *)
Definition unhex (c : ascii) : N :=
  let n := N_of_ascii c in if (n <? 58)%N then (n - 48)%N else (n - 55)%N.

(** [bytes.join('')] of the two-digit codes. *)
Fixpoint hex (data : list byte) : string :=
  match data with
  | [] => EmptyString
  | b :: rest => hexByte b ++ hex rest
  end.

(** [getFileSignature(file)]: one read of [file.slice(0, 4)].  The reader
    has an [onload] handler only, so the promise stays pending ([None])
    when the read fails. *)
Definition getFileSignature (file : File) (faults : Faults) : option (Outcome string) :=
  match faults 0 with
  | Some _ => None
  | None => Some (Resolved (hex (slice file 0 4)))
  end.

(** [name.match(/\.docx$/i)] and [name.match(/\.doc$/i)]: the pattern has
    ASCII letters only, so that ignoring case is lower-casing A to Z. *)
Definition isDocx (name : string) : bool := endsWith (asciiLower name) ".docx".
Definition isDocLegacy (name : string) : bool := endsWith (asciiLower name) ".doc".

Definition isZip (signature : string) : bool := startsWith signature "504B0304".

Definition isPdf (type signature : string) : bool :=
  String.eqb type "application/pdf" || startsWith signature "25504446".

(** What the document and audio flow of [processFile] does with a file. *)
Inductive Route : Type :=
| RejectLegacyDoc                 (* throw new UnsupportedFormatError(...) *)
| ExtractDocx                     (* extractDocxText(selectedFile) *)
| Transcribe (mimeType : string). (* GeminiService.transcribeAudio(base64Data, mimeType) *)

Section Routing.

Variable toLowerCase : string -> string.

(** "Normalize Audio Mimes for Gemini": the media type passed on. *)
Definition mimeTypeFor (name type signature : string) : string :=
  if endsWith (toLowerCase name) ".lrec" then "audio/lrec"
  else if isPdf type signature then "application/pdf"
  else if negb (startsWith type "audio/") then
    if startsWith signature "494433" || startsWith signature "FFFB" then "audio/mpeg"
    else if startsWith signature "52494646" then "audio/wav"
    else if startsWith signature "000000" then "audio/mp4"
    else type
  else type.

Definition route (name type signature : string) : Route :=
  if isDocLegacy name && startsWith signature "D0CF11E0" then RejectLegacyDoc
  else if isDocx name || (isZip signature && includes type "document") then ExtractDocx
  else Transcribe (mimeTypeFor name type signature).

End Routing.

(** The events of read number [i] of a run of [count] reads that all
    succeed: the read, the report and, unless the read is the last one,
    the yield. *)
Definition chunkEvents (file : File) (count i : nat) : list Event :=
  [ReadBlob (Z.of_nat i * chunkSize)
     (Z.min (Z.of_nat i * chunkSize + chunkSize) (size file));
   Report (percent (Z.of_nat i + 1) (chunkCount file))] ++
  (if (S i <? count)%nat then [Yield] else []).

Definition expectedEvents (file : File) : list Event :=
  let count := Z.to_nat (readsNeeded file) in
  List.concat (map (chunkEvents file count) (seq 0 count)).

(** The media type that [readAsDataURL] writes into the URL. *)
Definition mediaType (file : File) : string :=
  if String.eqb (type file) EmptyString then "application/octet-stream"
  else type file.

(** White space made of the ASCII blanks only: tab, line feed, vertical
    tab, form feed, carriage return and space. *)
Fixpoint blank (text : string) : bool :=
  match text with
  | EmptyString => true
  | String c rest =>
      let n := N_of_ascii c in
      ((((9 <=? n) && (n <=? 13)) || (n =? 32))%N) && blank rest
  end.

(** The image flow of [processFile]: the URL that [setUploadedImage]
    receives, built from [fileToBase64]. *)
Definition uploadedImage (file : File) (faults : Faults) : Outcome string :=
  match fileToBase64 file faults with
  | Rejected e => Rejected e
  | Resolved base64Data =>
      Resolved ("data:" ++ type file ++ ";base64," ++
                match base64Data with
                | Some text => text
                | None => "undefined"
                end)
  end.

(** The [type] argument of [processFile]. *)
Inductive Kind : Type :=
| lecture
| image.

(** Where a call of [processFile] ends, short of what [transcribeAudio]
    does. *)
Inductive Step : Type :=
| RefuseTooLarge                (* handleError(...); return *)
| Pending                       (* an awaited promise never settles *)
| Caught (error : JsValue)      (* the catch clause *)
| ShowImage (url : string)      (* setUploadedImage(url); return *)
| ExtractText                   (* await extractDocxText(selectedFile) *)
| CallTranscribe (base64Data : option string) (mimeType : string).
                                (* await GeminiService.transcribeAudio(...) *)

Definition legacyDocText : string :=
  "تنسيق .doc القديم غير مدعوم للمعالجة المباشرة. يرجى تحويل الملف إلى DOCX أو PDF.".

Section Flow.

Variable toLowerCase : string -> string.

(** [processFile(selectedFile, type)] up to its call of [transcribeAudio]:
    the size validation, the read of the signature, the image flow, the
    routing, the read of the file as base64 and the choice of the media
    type.  The signature and the contents are read by two readers, whose
    failures are [signatureFaults] and [faults].  The state setters of
    these lines bear on none of the tests and are left out. *)
Definition processFile (name : string) (file : File) (kind : Kind)
    (signatureFaults faults : Faults) : Step :=
  if size file >? MAX_FILE_SIZE then RefuseTooLarge
  else
    match getFileSignature file signatureFaults with
    | None => Pending
    | Some (Rejected e) => Caught e
    | Some (Resolved signature) =>
        match kind with
        | image =>
            match uploadedImage file faults with
            | Rejected e => Caught e
            | Resolved url => ShowImage url
            end
        | lecture =>
            match route toLowerCase name (type file) signature with
            | RejectLegacyDoc => Caught (UnsupportedFormatError legacyDocText)
            | ExtractDocx => ExtractText
            | Transcribe mimeType =>
                match base64Data file faults with
                | None => Pending
                | Some (Rejected e) => Caught e
                | Some (Resolved data) => CallTranscribe data mimeType
                end
            end
        end
    end.

End Flow.

(** The [ReadBlob] events of a run, in order. *)
Fixpoint blobs (events : list Event) : list (Z * Z) :=
  match events with
  | [] => []
  | ReadBlob start stop :: rest => (start, stop) :: blobs rest
  | _ :: rest => blobs rest
  end.

(** The [Yield] events of a run. *)
Fixpoint yields (events : list Event) : nat :=
  match events with
  | [] => 0%nat
  | Yield :: rest => S (yields rest)
  | _ :: rest => yields rest
  end.

End Detection.

(* ================================================================= *)
(** ** More concrete inputs *)

Module MoreSamples.

Import Js Retry Shell Samples.

Definition rpcFailed : JsValue :=
  JError "Error" "RPC failed due to xhr error. error code: 6".

Definition rawApiError : JsValue :=
  JOther (JObject [("error", JObject [("code", JNum 404);
                                      ("status", JString "NOT_FOUND")])]).

Definition emptyResult : JsValue := JError "Error" "Empty processing result".

(** Two retryable failures, then success. *)
Definition recovering : Operation unit :=
  fun k => if (k <? 2)%nat then Rejected serviceUnavailable else Resolved tt.

(** The first bytes of an MP3 file with an ID3 tag, and of a PDF file. *)
Definition mp3 : File :=
  {| bytes := list_byte_of_string "ID3" ++ [x04; x00; x00]; type := EmptyString |}.

Definition pdf : File :=
  {| bytes := list_byte_of_string "%PDF-1.7"; type := EmptyString |}.

Definition picture : File :=
  {| bytes := [x89; x50; x4e; x47]; type := "image/png" |}.

End MoreSamples.

(* ================================================================= *)
(** ** Properties of the executor *)

Module RetryFacts.

Import Js Retry Samples.

Lemma classify_payload msg :
  classify msg = PayloadTooLarge <-> payloadMarker msg = true.
Proof.
  unfold classify.
  destruct (payloadMarker msg), (invalidMarker msg), (quotaMarker msg),
    (transientMarker msg); split; intros H; congruence.
Qed.

Lemma classify_quota msg :
  classify msg = QuotaExceeded <->
  payloadMarker msg = false /\ invalidMarker msg = false /\ quotaMarker msg = true.
Proof.
  unfold classify.
  destruct (payloadMarker msg), (invalidMarker msg), (quotaMarker msg),
    (transientMarker msg); split; intros H; try congruence;
    try (repeat split; reflexivity); destruct H as (? & ? & ?); congruence.
Qed.

Lemma classify_transient msg :
  classify msg = Transient <->
  payloadMarker msg = false /\ invalidMarker msg = false /\
  quotaMarker msg = false /\ transientMarker msg = true.
Proof.
  unfold classify.
  destruct (payloadMarker msg), (invalidMarker msg), (quotaMarker msg),
    (transientMarker msg); split; intros H; try congruence;
    try (repeat split; reflexivity); destruct H as (? & ? & ? & ?); congruence.
Qed.

(** Serialisation completes on a value that holds no BigInt. *)
Lemma serialize_completes :
  forall d, Json.holdsBigInt d = false -> exists o, Json.serialize d = Normal o.
Proof.
  fix IH 1.
  intros [ | |[|]|n|n|s|s|items|props] H; cbn [Json.serialize];
    try (eexists; reflexivity); try discriminate.
  - cbn [Json.holdsBigInt] in H.
    match goal with |- context [?elements items] =>
      assert (Hel : exists parts, elements items = Normal parts) end.
    { induction items as [|x items IHitems]; [eexists; reflexivity|].
      cbn [existsb] in H. apply orb_false_elim in H. destruct H as [Hx Hrest].
      destruct (IH x Hx) as [o Ho]. rewrite Ho.
      destruct (IHitems Hrest) as [parts Hparts]. rewrite Hparts.
      eexists; reflexivity. }
    destruct Hel as [parts Hparts]. rewrite Hparts. eexists; reflexivity.
  - cbn [Json.holdsBigInt] in H.
    match goal with |- context [?members props] =>
      assert (Hel : exists parts, members props = Normal parts) end.
    { induction props as [|[k x] props IHprops]; [eexists; reflexivity|].
      cbn [existsb snd] in H. apply orb_false_elim in H. destruct H as [Hx Hrest].
      destruct (IH x Hx) as [o Ho]. rewrite Ho.
      destruct (IHprops Hrest) as [parts Hparts]. rewrite Hparts.
      eexists; reflexivity. }
    destruct Hel as [parts Hparts]. rewrite Hparts. eexists; reflexivity.
Qed.

(** On every other thrown value of the model the text is obtained: only
    a BigInt inside an object or an array makes the first statements of
    the [catch] clause throw. *)
Lemma errorText_completes (toLowerCase : string -> string) (err : JsValue) :
  Json.stringifiable err = true ->
  exists msg, errorText toLowerCase err = Normal msg.
Proof.
  destruct err as [name message|d]; [eexists; reflexivity|].
  destruct d as [ | |[|]|n|n|s|s|items|props]; intros H;
    try (eexists; reflexivity);
    cbn [Json.stringifiable] in H; apply negb_true_iff in H;
    destruct (serialize_completes _ H) as [o Ho];
    unfold errorText, Json.stringify; cbn [Json.serialize] in Ho |- *;
    match goal with
    | |- context [match ?run with Normal _ => _ | Abrupt _ => _ end] =>
        destruct run; [eexists; reflexivity|discriminate]
    end.
Qed.

Lemma backoff_formula n : forall delay,
  backoff n delay = map (fun i => delay * 2 ^ Z.of_nat i) (seq 0 n).
Proof.
  induction n as [|n IH]; intros delay; [reflexivity|].
  cbn [backoff seq map]. f_equal.
  - cbn. lia.
  - rewrite IH, <- seq_shift, map_map. apply map_ext. intros i.
    rewrite Nat2Z.inj_succ, Z.pow_succ_r by lia. lia.
Qed.

Lemma invocations_app l1 l2 :
  invocations (l1 ++ l2) = (invocations l1 + invocations l2)%nat.
Proof.
  induction l1 as [|[] l1 IH]; cbn; rewrite ?IH; reflexivity.
Qed.

Lemma sleeps_app l1 l2 : sleeps (l1 ++ l2) = (sleeps l1 ++ sleeps l2)%list.
Proof.
  induction l1 as [|[] l1 IH]; cbn; rewrite ?IH; reflexivity.
Qed.

Section Runs.

Variable toLowerCase : string -> string.
Context {T : Type}.

(** One call of [retry] whose attempt fails in the quota branch. *)
Lemma step_quota fuel (fn : Operation T) attempt retries delay :
  failsAs toLowerCase fn attempt QuotaExceeded ->
  retryFrom toLowerCase (S fuel) fn attempt retries delay =
  if retries >? 0 then
    andThen [Invoke attempt; WarnQuota delay; Sleep delay]
      (retryFrom toLowerCase fuel fn (S attempt) (retries - 1) (delay * 2))
  else ([Invoke attempt], Some (Rejected (QuotaExceededError quotaExceededText))).
Proof.
  intros (err & msg & Hfn & Htext & Hc).
  apply classify_quota in Hc. destruct Hc as (Hp & Hi & Hq).
  cbn [retryFrom]. rewrite Hfn, Htext, Hp, Hi, Hq. reflexivity.
Qed.

(** One call of [retry] whose attempt fails in the transient branch. *)
Lemma step_transient fuel (fn : Operation T) attempt retries delay :
  failsAs toLowerCase fn attempt Transient ->
  retryFrom toLowerCase (S fuel) fn attempt retries delay =
  if retries >? 0 then
    andThen [Invoke attempt; WarnRetry retries; Sleep delay]
      (retryFrom toLowerCase fuel fn (S attempt) (retries - 1) (delay * 2))
  else ([Invoke attempt], Some (fn attempt)).
Proof.
  intros (err & msg & Hfn & Htext & Hc).
  apply classify_transient in Hc. destruct Hc as (Hp & Hi & Hq & Ht).
  cbn [retryFrom]. rewrite Hfn, Htext, Hp, Hi, Hq, Ht.
  destruct (retries >? 0); reflexivity.
Qed.

(** A run in which every attempt is retryable, [n] retries allowed:
    [n + 1] calls of the operation, separated by the [n] doubling sleeps. *)
Lemma retryable_run n : forall fuel (fn : Operation T) attempt delay,
  (n < fuel)%nat ->
  (forall k, retryable toLowerCase fn k) ->
  let run := retryFrom toLowerCase fuel fn attempt (Z.of_nat n) delay in
  invocations (fst run) = S n /\ sleeps (fst run) = backoff n delay.
Proof.
  induction n as [|n IH]; intros fuel fn attempt delay Hfuel Hall;
    (destruct fuel as [|fuel]; [lia|]).
  - destruct (Hall attempt) as [H|H];
      [rewrite (step_quota _ _ _ _ _ H)|rewrite (step_transient _ _ _ _ _ H)];
      cbn; split; reflexivity.
  - assert (Hpos : (Z.of_nat (S n) >? 0) = true) by (apply Z.gtb_lt; lia).
    assert (Hpred : Z.of_nat (S n) - 1 = Z.of_nat n) by lia.
    destruct (IH fuel fn (S attempt) (delay * 2) ltac:(lia) Hall) as [Hi Hs].
    destruct (Hall attempt) as [H|H];
      [rewrite (step_quota _ _ _ _ _ H)|rewrite (step_transient _ _ _ _ _ H)];
      rewrite Hpos, Hpred; unfold andThen; cbn [fst];
      rewrite invocations_app, sleeps_app, Hi, Hs; split; reflexivity.
Qed.

(** When every attempt fails in the transient branch, the promise rejects
    with what the last call of the operation rejected with. *)
Lemma transient_run n : forall fuel (fn : Operation T) attempt delay,
  (n < fuel)%nat ->
  (forall k, failsAs toLowerCase fn k Transient) ->
  snd (retryFrom toLowerCase fuel fn attempt (Z.of_nat n) delay) =
  Some (fn (attempt + n)%nat).
Proof.
  induction n as [|n IH]; intros fuel fn attempt delay Hfuel Hall;
    (destruct fuel as [|fuel]; [lia|]);
    rewrite (step_transient _ _ _ _ _ (Hall attempt)).
  - cbn. now rewrite Nat.add_0_r.
  - replace (Z.of_nat (S n) >? 0) with true by (symmetry; apply Z.gtb_lt; lia).
    replace (Z.of_nat (S n) - 1) with (Z.of_nat n) by lia.
    unfold andThen; cbn [snd]. rewrite IH by (auto; lia).
    now rewrite Nat.add_succ_comm.
Qed.

(** When every attempt fails in the quota branch, the promise rejects with
    the terminal quota error. *)
Lemma quota_run n : forall fuel (fn : Operation T) attempt delay,
  (n < fuel)%nat ->
  (forall k, failsAs toLowerCase fn k QuotaExceeded) ->
  snd (retryFrom toLowerCase fuel fn attempt (Z.of_nat n) delay) =
  Some (Rejected (QuotaExceededError quotaExceededText)).
Proof.
  induction n as [|n IH]; intros fuel fn attempt delay Hfuel Hall;
    (destruct fuel as [|fuel]; [lia|]);
    rewrite (step_quota _ _ _ _ _ (Hall attempt)).
  - reflexivity.
  - replace (Z.of_nat (S n) >? 0) with true by (symmetry; apply Z.gtb_lt; lia).
    replace (Z.of_nat (S n) - 1) with (Z.of_nat n) by lia.
    unfold andThen; cbn [snd]. apply IH; auto; lia.
Qed.

(** [retry] always settles: the fuel it is given is never used up. *)
Lemma retryFrom_settles fuel : forall (fn : Operation T) attempt retries delay,
  (Z.to_nat retries < fuel)%nat ->
  exists o, snd (retryFrom toLowerCase fuel fn attempt retries delay) = Some o.
Proof.
  induction fuel as [|fuel IH]; intros fn attempt retries delay Hfuel; [lia|].
  cbn [retryFrom].
  destruct (fn attempt) as [t|err]; [eexists; reflexivity|].
  destruct (errorText toLowerCase err) as [msg|e]; [|eexists; reflexivity].
  destruct (payloadMarker msg); [eexists; reflexivity|].
  destruct (invalidMarker msg); [eexists; reflexivity|].
  assert (Hrec : retries > 0 -> (Z.to_nat (retries - 1) < fuel)%nat) by lia.
  destruct (quotaMarker msg).
  - destruct (retries >? 0) eqn:Hr; [|eexists; reflexivity].
    apply Z.gtb_lt in Hr. unfold andThen; cbn [snd]. apply IH. lia.
  - destruct (retries >? 0) eqn:Hr; cbn [andb]; [|eexists; reflexivity].
    destruct (transientMarker msg); [|eexists; reflexivity].
    apply Z.gtb_lt in Hr. unfold andThen; cbn [snd]. apply IH. lia.
Qed.

Lemma retry_settles (fn : Operation T) retries delay :
  exists o, snd (retry toLowerCase fn retries delay) = Some o.
Proof. apply retryFrom_settles. lia. Qed.

(** C1 (as amended).  A failure whose lower-cased text holds a quota marker
    ("429", "resource_exhausted" or "quota") and none of the markers tried
    before it ("413", "payload too large", "400", "invalid argument") is
    classified QuotaExceeded and takes the quota branch: while
    [retries > 0] the executor sleeps [delay] and calls itself with
    [retries - 1] and [delay * 2], otherwise it raises the terminal quota
    error. *)
Theorem quota_marker_takes_quota_branch
    fuel (fn : Operation T) attempt retries delay err msg :
  fn attempt = Rejected err ->
  errorText toLowerCase err = Normal msg ->
  quotaMarker msg = true ->
  payloadMarker msg = false ->
  invalidMarker msg = false ->
  classify msg = QuotaExceeded /\
  retryFrom toLowerCase (S fuel) fn attempt retries delay =
  if retries >? 0 then
    andThen [Invoke attempt; WarnQuota delay; Sleep delay]
      (retryFrom toLowerCase fuel fn (S attempt) (retries - 1) (delay * 2))
  else ([Invoke attempt], Some (Rejected (QuotaExceededError quotaExceededText))).
Proof.
  intros Hfn Htext Hq Hp Hi.
  assert (Hc : classify msg = QuotaExceeded) by (apply classify_quota; auto).
  split; [exact Hc|].
  apply step_quota. exists err, msg. auto.
Qed.

(** C2 (as amended).  With [maxRetries = N >= 0], when every call of the
    operation fails with a text that holds a transient marker and none of
    the markers of the three branches tried before it (so that it is
    classified Transient), the operation is called exactly [N + 1] times
    and the promise rejects with the very value the last call rejected
    with. *)
Theorem transient_exhaustion (fn : Operation T) N delay :
  0 <= N ->
  (forall k, failsAs toLowerCase fn k Transient) ->
  invocations (fst (retry toLowerCase fn N delay)) = (Z.to_nat N + 1)%nat /\
  snd (retry toLowerCase fn N delay) = Some (fn (Z.to_nat N)) /\
  exists err, fn (Z.to_nat N) = Rejected err.
Proof.
  intros HN Hall. unfold retry.
  rewrite <- (Z2Nat.id N HN) at 2 5.
  repeat split.
  - rewrite Nat.add_1_r.
    apply (retryable_run (Z.to_nat N)); [lia|]. intros k. right. apply Hall.
  - apply (transient_run (Z.to_nat N) _ fn 0%nat); [lia|exact Hall].
  - destruct (Hall (Z.to_nat N)) as (err & _ & Hfn & _). now exists err.
Qed.

(** C5.  When the first failure's lower-cased text holds "413" or
    "payload too large", it is classified PayloadTooLarge and, whatever
    [retries] is, the run is a single call of the operation followed by the
    terminal error: no retry and no sleep. *)
Theorem payload_too_large_single_attempt
    (fn : Operation T) retries delay err msg :
  fn 0%nat = Rejected err ->
  errorText toLowerCase err = Normal msg ->
  payloadMarker msg = true ->
  classify msg = PayloadTooLarge /\
  retry toLowerCase fn retries delay =
    ([Invoke 0], Some (Rejected (FileTooLargeError fileTooLargeText))) /\
  invocations (fst (retry toLowerCase fn retries delay)) = 1%nat /\
  sleeps (fst (retry toLowerCase fn retries delay)) = [].
Proof.
  intros Hfn Htext Hp.
  assert (Hrun : retry toLowerCase fn retries delay =
                 ([Invoke 0], Some (Rejected (FileTooLargeError fileTooLargeText)))).
  { unfold retry. cbn [retryFrom]. now rewrite Hfn, Htext, Hp. }
  split; [now apply classify_payload|]. rewrite Hrun. auto.
Qed.

(** C6.  When every attempt fails in a retried branch (QuotaExceeded or
    Transient), the sleeps of a default run (3 retries, first delay 2000)
    are 2000, 4000 and 8000 ms; with [retries >= 0] and a first delay
    [delay], the sleep before retry number [i + 1] is [delay * 2 ^ i]. *)
Theorem backoff_delays (fn : Operation T) :
  (forall k, retryable toLowerCase fn k) ->
  sleeps (fst (retryDefault toLowerCase fn)) = [2000; 4000; 8000] /\
  forall retries delay, 0 <= retries ->
    sleeps (fst (retry toLowerCase fn retries delay)) =
    map (fun i => delay * 2 ^ Z.of_nat i) (seq 0 (Z.to_nat retries)).
Proof.
  intros Hall. split.
  - unfold retryDefault, retry.
    change 3 with (Z.of_nat 3) at 2.
    apply (retryable_run 3); [cbn; lia|exact Hall].
  - intros retries delay Hr. unfold retry.
    rewrite <- backoff_formula.
    rewrite <- (Z2Nat.id retries Hr) at 2.
    apply (retryable_run (Z.to_nat retries)); [lia|exact Hall].
Qed.

(** C7.  With [maxRetries = N >= 0], when every attempt fails in the quota
    branch, the operation is called [N + 1] times and the promise then
    rejects with the terminal [QuotaExceededError]: an error of that class
    with the fixed message, whatever the operation threw, hence different
    from any underlying error that is not itself of that class. *)
Theorem quota_exhaustion (fn : Operation T) N delay :
  0 <= N ->
  (forall k, failsAs toLowerCase fn k QuotaExceeded) ->
  invocations (fst (retry toLowerCase fn N delay)) = (Z.to_nat N + 1)%nat /\
  snd (retry toLowerCase fn N delay) =
    Some (Rejected (JError "QuotaExceededError" quotaExceededText)) /\
  forall k name message,
    fn k = Rejected (JError name message) ->
    name <> "QuotaExceededError" ->
    snd (retry toLowerCase fn N delay) <> Some (fn k).
Proof.
  intros HN Hall.
  assert (Hout : snd (retry toLowerCase fn N delay) =
                 Some (Rejected (JError "QuotaExceededError" quotaExceededText))).
  { unfold retry. rewrite <- (Z2Nat.id N HN) at 2.
    apply (quota_run (Z.to_nat N)); [lia|exact Hall]. }
  repeat split.
  - unfold retry. rewrite <- (Z2Nat.id N HN) at 2. rewrite Nat.add_1_r.
    apply (retryable_run (Z.to_nat N)); [lia|]. intros k. left. apply Hall.
  - exact Hout.
  - intros k name message Hfn Hname. rewrite Hout, Hfn. congruence.
Qed.

(** C8.  An object that holds a BigInt is not an [Error] and has type
    ['object'], so its text is taken with [JSON.stringify], which throws a
    [TypeError]: the stringification step itself throws, and the promise
    rejects with that [TypeError] before any marker is looked for. *)
Theorem stringification_throws_on_bigint :
  let err := JOther (JObject [("code", JBigInt 429)]) in
  errorText toLowerCase err = Abrupt (TypeError Json.bigIntMessage) /\
  retryDefault toLowerCase (fun _ => Rejected err : Outcome T) =
    ([Invoke 0], Some (Rejected (TypeError Json.bigIntMessage))).
Proof.
  split; reflexivity.
Qed.

End Runs.

(** *** Concrete runs *)

Lemma always_failsAs err msg c :
  errorText asciiLower err = Normal msg ->
  classify msg = c ->
  forall k, failsAs asciiLower (always err) k c.
Proof.
  intros Htext Hc k. exists err, msg. auto.
Qed.

Lemma quota_marker_takes_quota_branch_witness :
  classify (asciiLower "got status: 429 Too Many Requests. Quota exceeded.") =
    QuotaExceeded /\
  retryFrom asciiLower 4 (always tooManyRequests) 0 3 2000 =
  if 3 >? 0 then
    andThen [Invoke 0; WarnQuota 2000; Sleep 2000]
      (retryFrom asciiLower 3 (always tooManyRequests) 1 (3 - 1) (2000 * 2))
  else ([Invoke 0%nat], Some (Rejected (QuotaExceededError quotaExceededText))).
Proof.
  apply (quota_marker_takes_quota_branch asciiLower 3 (always tooManyRequests)
           0%nat 3 2000 tooManyRequests); reflexivity.
Defined.

(** C1, as stated, fails: this text holds "429" and "quota", yet it is
    classified InvalidArgument, and the run ends after one call with the
    unsupported-format error although three retries were allowed. *)
Lemma quota_marker_counterexample :
  quotaMarker (asciiLower "429 Too Many Requests: quota of 400 requests per day exceeded")
    = true /\
  classify (asciiLower "429 Too Many Requests: quota of 400 requests per day exceeded")
    = InvalidArgument /\
  retry asciiLower (always quotaOf400) 3 2000 =
    ([Invoke 0], Some (Rejected (UnsupportedFormatError unsupportedFormatText))).
Proof.
  repeat split; reflexivity.
Qed.

Lemma transient_exhaustion_witness :
  invocations (fst (retry asciiLower (always serviceUnavailable) 3 2000)) =
    (Z.to_nat 3 + 1)%nat /\
  snd (retry asciiLower (always serviceUnavailable) 3 2000) =
    Some (always serviceUnavailable (Z.to_nat 3)) /\
  exists err, always serviceUnavailable (Z.to_nat 3) = Rejected err.
Proof.
  apply (transient_exhaustion asciiLower (always serviceUnavailable) 3 2000).
  - lia.
  - apply (always_failsAs _ (asciiLower "503 Service Unavailable")); reflexivity.
Defined.

(** C2, as stated, fails: this text holds the transient marker "timeout",
    yet with three retries allowed the operation is called once and the
    promise rejects with the unsupported-format error, not with the
    original one. *)
Lemma transient_exhaustion_counterexample :
  transientMarker (asciiLower "Request timeout after 4000 ms") = true /\
  invocations (fst (retry asciiLower (always timeoutAfter4000) 3 2000)) = 1%nat /\
  snd (retry asciiLower (always timeoutAfter4000) 3 2000) =
    Some (Rejected (UnsupportedFormatError unsupportedFormatText)) /\
  UnsupportedFormatError unsupportedFormatText <> timeoutAfter4000.
Proof.
  repeat split; try reflexivity. discriminate.
Qed.

Lemma payload_too_large_single_attempt_witness :
  classify (asciiLower "413 Payload Too Large") = PayloadTooLarge /\
  retry asciiLower (always (JError "Error" "413 Payload Too Large")) 5 2000 =
    ([Invoke 0], Some (Rejected (FileTooLargeError fileTooLargeText))) /\
  invocations
    (fst (retry asciiLower (always (JError "Error" "413 Payload Too Large")) 5 2000))
    = 1%nat /\
  sleeps
    (fst (retry asciiLower (always (JError "Error" "413 Payload Too Large")) 5 2000))
    = [].
Proof.
  apply (payload_too_large_single_attempt asciiLower
           (always (JError "Error" "413 Payload Too Large")) 5 2000
           (JError "Error" "413 Payload Too Large")); reflexivity.
Defined.

Lemma backoff_delays_witness :
  sleeps (fst (retryDefault asciiLower (always serviceUnavailable))) =
    [2000; 4000; 8000] /\
  forall retries delay, 0 <= retries ->
    sleeps (fst (retry asciiLower (always serviceUnavailable) retries delay)) =
    map (fun i => delay * 2 ^ Z.of_nat i) (seq 0 (Z.to_nat retries)).
Proof.
  apply (backoff_delays asciiLower (always serviceUnavailable)).
  intros k. right.
  apply (always_failsAs _ (asciiLower "503 Service Unavailable")); reflexivity.
Defined.

Lemma quota_exhaustion_witness :
  invocations (fst (retry asciiLower (always tooManyRequests) 3 2000)) =
    (Z.to_nat 3 + 1)%nat /\
  snd (retry asciiLower (always tooManyRequests) 3 2000) =
    Some (Rejected (JError "QuotaExceededError" quotaExceededText)) /\
  forall k name message,
    always tooManyRequests k = Rejected (JError name message) ->
    name <> "QuotaExceededError" ->
    snd (retry asciiLower (always tooManyRequests) 3 2000) <>
    Some (always tooManyRequests k).
Proof.
  apply (quota_exhaustion asciiLower (always tooManyRequests) 3 2000).
  - lia.
  - apply (always_failsAs _
             (asciiLower "got status: 429 Too Many Requests. Quota exceeded."));
      reflexivity.
Defined.

(** The scenarios of the specification, run on the model. *)
Example two_failures_then_success :
  retry asciiLower
    (fun k => if (k <? 2)%nat then Rejected serviceUnavailable else Resolved tt)
    3 100 =
  ([Invoke 0; WarnRetry 3; Sleep 100; Invoke 1; WarnRetry 2; Sleep 200; Invoke 2],
   Some (Resolved tt)).
Proof. reflexivity. Qed.

Example invalid_argument_fails_fast :
  retry asciiLower (always (JError "Error" "Invalid Argument: bad mime type")) 3 2000 =
  ([Invoke 0], Some (Rejected (UnsupportedFormatError unsupportedFormatText))).
Proof. reflexivity. Qed.

Example oversized_object_fails_fast :
  retry asciiLower (always oversized) 3 2000 =
  ([Invoke 0], Some (Rejected (FileTooLargeError fileTooLargeText))).
Proof. reflexivity. Qed.

End RetryFacts.

(* ================================================================= *)
(** ** Properties of base64 *)

Module Base64Facts.

Import Base64.

Lemma decode_encodeSextet n : (n < 64)%N -> decodeChar (encodeSextet n) = Some n.
Proof.
  intros Hn.
  destruct n as [|p]; [reflexivity|].
  do 6 (destruct p as [p|p|]; try reflexivity); exfalso; lia.
Qed.

Lemma encodeSextet_not_pad n : (n < 64)%N -> Ascii.eqb (encodeSextet n) pad = false.
Proof.
  intros Hn.
  destruct n as [|p]; [reflexivity|].
  do 6 (destruct p as [p|p|]; try reflexivity); exfalso; lia.
Qed.

Lemma code_bounded c : (code c < 256)%N.
Proof. apply N_ascii_bounded. Qed.

(** Induction on a string three characters at a time. *)
Lemma string_ind_by_3 (P : string -> Prop) :
  P EmptyString ->
  (forall a, P (String a EmptyString)) ->
  (forall a b, P (String a (String b EmptyString))) ->
  (forall a b c rest, P rest -> P (String a (String b (String c rest)))) ->
  forall s, P s.
Proof.
  intros H0 H1 H2 H3.
  assert (H : forall s, P s /\ (forall a, P (String a s)) /\
                        (forall a b, P (String a (String b s)))).
  { induction s as [|c s (IH0 & IH1 & IH2)]; repeat split; auto. }
  intros s. apply H.
Qed.

(** Decoding what [btoa] wrote gives the binary string back. *)
Lemma atob_btoa : forall binary, atob (btoa binary) = Some binary.
Proof.
  induction binary as [|a|a b|a b c rest IH] using string_ind_by_3.
  - reflexivity.
  - pose proof (code_bounded a) as Ha.
    cbn [btoa atob].
    rewrite !decode_encodeSextet by div_lia. cbn.
    replace (code a / 4 * 4 + code a mod 4 * 16 / 16)%N with (code a) by div_lia.
    unfold code. now rewrite ascii_N_embedding.
  - pose proof (code_bounded a) as Ha. pose proof (code_bounded b) as Hb.
    cbn [btoa atob].
    rewrite !decode_encodeSextet by div_lia.
    rewrite encodeSextet_not_pad by div_lia. cbn.
    replace (code a / 4 * 4 + (code a mod 4 * 16 + code b / 16) / 16)%N
      with (code a) by div_lia.
    replace ((code a mod 4 * 16 + code b / 16) mod 16 * 16 + code b mod 16 * 4 / 4)%N
      with (code b) by div_lia.
    unfold code. now rewrite !ascii_N_embedding.
  - pose proof (code_bounded a) as Ha. pose proof (code_bounded b) as Hb.
    pose proof (code_bounded c) as Hc.
    cbn [btoa atob].
    rewrite !decode_encodeSextet by div_lia.
    rewrite !encodeSextet_not_pad by div_lia.
    rewrite IH.
    replace (code a / 4 * 4 + (code a mod 4 * 16 + code b / 16) / 16)%N
      with (code a) by div_lia.
    replace ((code a mod 4 * 16 + code b / 16) mod 16 * 16 +
             (code b mod 16 * 4 + code c / 64) / 4)%N
      with (code b) by div_lia.
    replace ((code b mod 16 * 4 + code c / 64) mod 4 * 64 + code c mod 64)%N
      with (code c) by div_lia.
    unfold code. now rewrite !ascii_N_embedding.
Qed.

Lemma decode_btoa bytes : decode (btoa (string_of_list_byte bytes)) = Some bytes.
Proof.
  unfold decode. rewrite atob_btoa. cbn.
  now rewrite list_byte_of_string_of_list_byte.
Qed.

End Base64Facts.

(* ================================================================= *)
(** ** Properties of the file readers *)

Module ShellFacts.

Import Js Shell Samples.

Local Open Scope Z_scope.

(** *** Strings and buffers *)

Lemma append_empty_r (s : string) : s ++ EmptyString = s.
Proof. induction s as [|c s IH]; cbn; [reflexivity|now rewrite IH]. Qed.

Lemma append_associative (s t u : string) : (s ++ t) ++ u = s ++ t ++ u.
Proof. induction s as [|c s IH]; cbn; [reflexivity|now rewrite IH]. Qed.

Lemma fromCharCode_app (l1 l2 : list byte) :
  fromCharCode (l1 ++ l2) = fromCharCode l1 ++ fromCharCode l2.
Proof.
  unfold fromCharCode, string_of_list_byte.
  induction l1 as [|b l1 IH]; cbn; [reflexivity|now rewrite IH].
Qed.

Lemma firstn_plus {A} (n m : nat) (l : list A) :
  firstn (n + m) l = (firstn n l ++ firstn m (skipn n l))%list.
Proof.
  revert l. induction n as [|n IH]; intros l; [reflexivity|].
  destruct l as [|x l]; cbn; [now rewrite firstn_nil|now rewrite IH].
Qed.

Lemma totalLen_concat (parts : list (list byte)) (acc : nat) :
  fold_left (fun acc b => (acc + List.length b)%nat) parts acc =
  (acc + List.length (List.concat parts))%nat.
Proof.
  revert acc. induction parts as [|part parts IH]; intros acc; cbn.
  - lia.
  - rewrite IH, length_app. lia.
Qed.

(** Writing a part at the end of what is already in place. *)
Lemma set_at_end (filled part rest : list byte) :
  (List.length part <= List.length rest)%nat ->
  set (filled ++ rest) part (List.length filled) =
  ((filled ++ part) ++ skipn (List.length part) rest)%list.
Proof.
  intros Hlen. unfold set.
  rewrite firstn_app, Nat.sub_diag, firstn_all, firstn_O, app_nil_r.
  rewrite skipn_app, skipn_all2 by lia.
  replace (List.length filled + List.length part - List.length filled)%nat
    with (List.length part) by lia.
  now rewrite <- app_assoc.
Qed.

Lemma copyParts_concat (parts : list (list byte)) :
  forall filled rest,
    List.length rest = List.length (List.concat parts) ->
    copyParts parts (filled ++ rest) (List.length filled) =
    (filled ++ List.concat parts)%list.
Proof.
  induction parts as [|part parts IH]; intros filled rest Hlen; cbn in *.
  - destruct rest; [reflexivity|discriminate].
  - rewrite length_app in Hlen.
    rewrite set_at_end by lia.
    rewrite <- length_app, IH.
    + now rewrite <- app_assoc.
    + rewrite length_skipn. lia.
Qed.

(** The combined buffer holds the parts one after the other. *)
Lemma combine_concat (resultParts : list (list byte)) :
  combine resultParts = List.concat resultParts.
Proof.
  unfold combine. rewrite totalLen_concat. cbn [Nat.add].
  apply (copyParts_concat resultParts [] (repeat x00 _)).
  apply repeat_length.
Qed.

Lemma B64_CHUNK_pos : 0 < B64_CHUNK.
Proof. reflexivity. Qed.

Lemma chunkSize_pos : 0 < chunkSize.
Proof. reflexivity. Qed.

(** The windows of the conversion loop, appended, are the whole buffer. *)
Lemma binaryFrom_rest (fuel : nat) : forall buffer i binary,
  0 <= i ->
  Z.of_nat (List.length buffer) - i <= Z.of_nat fuel ->
  binaryFrom fuel buffer i binary =
  binary ++ fromCharCode (skipn (Z.to_nat i) buffer).
Proof.
  pose proof B64_CHUNK_pos as HB.
  induction fuel as [|fuel IH]; intros buffer i binary Hi Hfuel; cbn [binaryFrom].
  - rewrite skipn_all2 by lia. cbn. now rewrite append_empty_r.
  - destruct (i <? Z.of_nat (List.length buffer)) eqn:Hlt.
    + rewrite IH by lia. unfold subarray.
      rewrite append_associative, <- fromCharCode_app. do 2 f_equal.
      replace (i + B64_CHUNK - i) with B64_CHUNK by lia.
      replace (Z.to_nat (i + B64_CHUNK))
        with (Z.to_nat B64_CHUNK + Z.to_nat i)%nat by lia.
      rewrite <- skipn_skipn. apply firstn_skipn.
    + apply Z.ltb_ge in Hlt.
      rewrite skipn_all2 by lia. cbn. now rewrite append_empty_r.
Qed.

(** "Convert to Base64" is [btoa] of the buffer read as a binary string. *)
Lemma toBase64_btoa (fullBuffer : list byte) :
  toBase64 fullBuffer = Base64.btoa (string_of_list_byte fullBuffer).
Proof.
  unfold toBase64. rewrite binaryFrom_rest by lia. reflexivity.
Qed.

(** *** The read loop *)

(** [chunkCount] is the ceiling of [size / chunkSize]. *)
Lemma chunkCount_ceiling (file : File) :
  chunkSize * (chunkCount file - 1) < size file <= chunkSize * chunkCount file.
Proof.
  pose proof chunkSize_pos as HC. unfold chunkCount.
  pose proof (Z.mul_div_le (size file + chunkSize - 1) chunkSize HC).
  pose proof (Z.mul_succ_div_gt (size file + chunkSize - 1) chunkSize HC).
  lia.
Qed.

Lemma size_nonneg (file : File) : 0 <= size file.
Proof. unfold size. lia. Qed.

Lemma chunkCount_nonneg (file : File) : 0 <= chunkCount file.
Proof.
  pose proof chunkSize_pos. pose proof (size_nonneg file).
  unfold chunkCount. apply Z.div_pos; lia.
Qed.

Lemma chunkCount_pos (file : File) : 0 < size file -> 0 < chunkCount file.
Proof.
  intros Hs. pose proof chunkSize_pos. pose proof (chunkCount_ceiling file). nia.
Qed.

Lemma reportsFrom_step (file : File) (k : Z) :
  k + 1 < chunkCount file ->
  reportsFrom file k =
  percent (k + 1) (chunkCount file) :: reportsFrom file (k + 1).
Proof.
  intros Hk. unfold reportsFrom.
  replace (Z.to_nat (Z.max 1 (chunkCount file - k)))
    with (S (Z.to_nat (Z.max 1 (chunkCount file - (k + 1))))) by lia.
  cbn [seq map]. f_equal.
  - f_equal. lia.
  - rewrite <- seq_shift, map_map. apply map_ext. intros i. f_equal. lia.
Qed.

Lemma reportsFrom_last (file : File) (k : Z) :
  chunkCount file <= k + 1 ->
  reportsFrom file k = [percent (k + 1) (chunkCount file)].
Proof.
  intros Hk. unfold reportsFrom.
  replace (Z.to_nat (Z.max 1 (chunkCount file - k))) with 1%nat by lia.
  cbn. do 2 f_equal. lia.
Qed.

(** A blob that is not the last one is a full chunk. *)
Lemma slice_inner (file : File) (k : Z) :
  0 <= k -> k + 1 < chunkCount file ->
  slice file (k * chunkSize) (Z.min (k * chunkSize + chunkSize) (size file)) =
  firstn (Z.to_nat chunkSize) (skipn (Z.to_nat (k * chunkSize)) (bytes file)).
Proof.
  intros Hk Hlt. pose proof chunkSize_pos. pose proof (chunkCount_ceiling file).
  unfold slice. rewrite Z.min_l by nia. do 2 f_equal. lia.
Qed.

(** The last blob is all that is left of the file. *)
Lemma slice_last (file : File) (k : Z) :
  0 <= k -> chunkCount file <= k + 1 ->
  slice file (k * chunkSize) (Z.min (k * chunkSize + chunkSize) (size file)) =
  skipn (Z.to_nat (k * chunkSize)) (bytes file).
Proof.
  intros Hk Hge. pose proof chunkSize_pos. pose proof (chunkCount_ceiling file).
  unfold slice. rewrite Z.min_r by nia.
  apply firstn_all2. rewrite length_skipn. unfold size. lia.
Qed.

(** A run from chunk [k] on in which no read fails: the promise resolves
    with the base64 of the whole file, after one report per read. *)
Lemma readFrom_succeeds (fuel : nat) : forall file faults k resultParts,
  0 <= k ->
  (1 <= fuel)%nat ->
  chunkCount file - k <= Z.of_nat fuel ->
  (forall j, k <= j < Z.max (k + 1) (chunkCount file) -> faults j = None) ->
  List.concat resultParts = firstn (Z.to_nat (k * chunkSize)) (bytes file) ->
  let run := readFrom fuel file faults k resultParts in
  snd run = Some (Resolved (Base64.btoa (string_of_list_byte (bytes file)))) /\
  reports (fst run) = reportsFrom file k.
Proof.
  pose proof chunkSize_pos as HC.
  induction fuel as [|fuel IH];
    intros file faults k resultParts Hk Hfuel Hleft Hok Hparts; [lia|].
  cbn zeta. cbn [readFrom].
  rewrite (Hok k) by lia.
  destruct (k + 1 <? chunkCount file) eqn:Hmore.
  - apply Z.ltb_lt in Hmore.
    unfold andThen. cbn [fst snd].
    rewrite reportsFrom_step by exact Hmore. cbn [app reports].
    destruct (IH file faults (k + 1) (resultParts ++ [
      slice file (k * chunkSize) (Z.min (k * chunkSize + chunkSize) (size file))])%list)
      as [Hout Hrep]; try lia.
    + intros j Hj. apply Hok. lia.
    + rewrite concat_app, Hparts, slice_inner by lia. cbn [List.concat].
      rewrite app_nil_r, <- firstn_plus. f_equal. lia.
    + cbn zeta in Hout, Hrep. rewrite Hout, Hrep. split; reflexivity.
  - apply Z.ltb_ge in Hmore. cbn [fst snd reports].
    rewrite reportsFrom_last by exact Hmore.
    rewrite combine_concat, concat_app, Hparts, slice_last by lia.
    cbn [List.concat]. rewrite app_nil_r, firstn_skipn, toBase64_btoa.
    split; reflexivity.
Qed.

(** A run from chunk [k] on whose first failing read is number [j]: the
    promise rejects with the error event of that read, after the reports
    of the reads before it, and no read follows. *)
Lemma readFrom_fails (fuel : nat) : forall file faults k resultParts j errorEvent,
  0 <= k <= j ->
  j < Z.max (k + 1) (chunkCount file) ->
  (1 <= fuel)%nat ->
  chunkCount file - k <= Z.of_nat fuel ->
  faults j = Some errorEvent ->
  (forall i, k <= i < j -> faults i = None) ->
  let run := readFrom fuel file faults k resultParts in
  snd run = Some (Rejected errorEvent) /\
  readCount (fst run) = Z.to_nat (j - k + 1) /\
  List.length (reports (fst run)) = Z.to_nat (j - k).
Proof.
  induction fuel as [|fuel IH];
    intros file faults k resultParts j errorEvent Hk Hj Hfuel Hleft Hbad Hok; [lia|].
  cbn zeta. cbn [readFrom].
  destruct (Z.eq_dec j k) as [->|Hne].
  - rewrite Hbad. cbn [fst snd readCount reports List.length].
    repeat split; f_equal; lia.
  - rewrite (Hok k) by lia.
    replace (k + 1 <? chunkCount file) with true by (symmetry; apply Z.ltb_lt; lia).
    unfold andThen. cbn [fst snd app readCount reports List.length].
    destruct (IH file faults (k + 1) (resultParts ++ [
      slice file (k * chunkSize) (Z.min (k * chunkSize + chunkSize) (size file))])%list
      j errorEvent) as (Hout & Hreads & Hreps); try lia; try assumption.
    + intros i Hi. apply Hok. lia.
    + cbn zeta in Hout, Hreads, Hreps. rewrite Hout, Hreads, Hreps.
      repeat split; lia.
Qed.

Lemma nth_map_seq {A} (f : nat -> A) (m i : nat) (d : A) :
  (i < m)%nat -> nth i (map f (seq 0 m)) d = f i.
Proof.
  intros Hi.
  rewrite (nth_indep _ d (f 0%nat)) by now rewrite length_map, length_seq.
  now rewrite map_nth, seq_nth.
Qed.

Lemma percent_finite (c n : Z) :
  0 < n -> percent c n = Finite ((80 * c + n) / (2 * n)).
Proof.
  intros Hn. unfold percent.
  now replace (n =? 0) with false by (symmetry; apply Z.eqb_neq; lia).
Qed.

(** The last chunk is reported as 40. *)
Lemma percent_full (n : Z) : 0 < n -> percent n n = Finite 40.
Proof.
  intros Hn. rewrite percent_finite by exact Hn. f_equal.
  replace (80 * n + n) with (n + 40 * (2 * n)) by lia.
  rewrite Z.div_add by lia. rewrite Z.div_small by lia. reflexivity.
Qed.

Lemma round_monotone (n c d : Z) :
  0 < n -> c <= d -> (80 * c + n) / (2 * n) <= (80 * d + n) / (2 * n).
Proof.
  intros Hn Hcd. apply Z.div_le_mono; lia.
Qed.

(** With at most 40 chunks, one more chunk is at least one more percent. *)
Lemma round_strict (n c d : Z) :
  0 < n <= 40 -> c < d -> (80 * c + n) / (2 * n) < (80 * d + n) / (2 * n).
Proof.
  intros Hn Hcd.
  assert (H : (80 * c + n) / (2 * n) + 1 <= (80 * d + n) / (2 * n)).
  { replace ((80 * c + n) / (2 * n) + 1)
      with ((80 * c + n + 1 * (2 * n)) / (2 * n)) by (rewrite Z.div_add; lia).
    apply Z.div_le_mono; lia. }
  lia.
Qed.

Lemma readFileChunked_succeeds (file : File) (faults : Faults) :
  succeeds file faults ->
  snd (readFileChunked file faults) =
    Some (Resolved (Base64.btoa (string_of_list_byte (bytes file)))) /\
  reports (fst (readFileChunked file faults)) = reportsFrom file 0.
Proof.
  intros Hok. pose proof (chunkCount_nonneg file).
  apply (readFrom_succeeds (S (Z.to_nat (chunkCount file))) file faults 0 []);
    try lia.
  - intros j Hj. apply Hok. unfold readsNeeded. lia.
  - reflexivity.
Qed.

(** Among the reads of a run, either none fails or there is a first one
    that does. *)
Lemma first_fault (faults : Faults) (n : nat) :
  (forall i, 0 <= i < Z.of_nat n -> faults i = None) \/
  (exists j errorEvent,
     0 <= j < Z.of_nat n /\ faults j = Some errorEvent /\
     forall i, 0 <= i < j -> faults i = None).
Proof.
  induction n as [|n [Hnone|(j & e & Hj & Hbad & Hfirst)]].
  - left. intros i Hi. lia.
  - destruct (faults (Z.of_nat n)) as [e|] eqn:Hn.
    + right. exists (Z.of_nat n), e. repeat split; try lia; assumption.
    + left. intros i Hi.
      destruct (Z.eq_dec i (Z.of_nat n)) as [->|Hne]; [exact Hn|apply Hnone; lia].
  - right. exists j, e. repeat split; try lia; assumption.
Qed.

(** [readFileChunked] always settles: the fuel it is given is never used
    up. *)
Lemma readFileChunked_settles (file : File) (faults : Faults) :
  exists o, snd (readFileChunked file faults) = Some o.
Proof.
  pose proof (chunkCount_nonneg file) as Hcount.
  destruct (first_fault faults (Z.to_nat (readsNeeded file)))
    as [Hnone|(j & e & Hj & Hfault & Hfirst)].
  - eexists. apply readFileChunked_succeeds.
    intros k Hk. apply Hnone. unfold readsNeeded in *. lia.
  - exists (Rejected e).
    apply (readFrom_fails (S (Z.to_nat (chunkCount file))) file faults 0 [] j e);
      unfold readsNeeded in Hj; try lia; assumption.
Qed.

(** The files that [processFile] hands to the chunked reader, larger than
    [CHUNK_THRESHOLD] and not larger than [MAX_FILE_SIZE], have 3 to 9
    chunks. *)
Lemma application_chunk_range (file : File) :
  CHUNK_THRESHOLD < size file <= MAX_FILE_SIZE -> 3 <= chunkCount file <= 9.
Proof.
  intros Hsize. pose proof (chunkCount_ceiling file) as Hceil.
  unfold CHUNK_THRESHOLD, MAX_FILE_SIZE, chunkSize in *. lia.
Qed.

(** *** Commas and [split] *)

Lemma includes_comma (text : string) : includes text "," = hasComma text.
Proof.
  induction text as [|c text IH]; [reflexivity|].
  cbn [includes hasComma String.prefix]. rewrite IH.
  destruct (ascii_dec ","%char c) as [<-|Hne].
  - rewrite Ascii.eqb_refl. destruct text; reflexivity.
  - destruct (Ascii.eqb_spec c ","%char) as [->|_]; [contradiction|].
    destruct text; reflexivity.
Qed.

Lemma hasComma_app (s t : string) :
  hasComma (s ++ t) = hasComma s || hasComma t.
Proof.
  induction s as [|c s IH]; cbn; [reflexivity|]. now rewrite IH, orb_assoc.
Qed.

Lemma split_whole (text : string) : hasComma text = false -> split text = [text].
Proof.
  induction text as [|c text IH]; cbn; [reflexivity|].
  intros H. apply orb_false_elim in H. destruct H as [Hc Hrest].
  now rewrite Hc, IH.
Qed.

Lemma split_at_comma (before after : string) :
  hasComma before = false ->
  split (before ++ String ","%char after) = before :: split after.
Proof.
  induction before as [|c before IH]; cbn; [reflexivity|].
  intros H. apply orb_false_elim in H. destruct H as [Hc Hrest].
  now rewrite Hc, IH.
Qed.

Lemma encodeSextet_not_comma n :
  (n < 64)%N -> Ascii.eqb (Base64.encodeSextet n) ","%char = false.
Proof.
  intros Hn.
  destruct n as [|p]; [reflexivity|].
  do 6 (destruct p as [p|p|]; try reflexivity); exfalso; lia.
Qed.

(** [btoa] writes no comma. *)
Lemma btoa_no_comma : forall binary, hasComma (Base64.btoa binary) = false.
Proof.
  induction binary as [|a|a b|a b c rest IH] using Base64Facts.string_ind_by_3;
    try pose proof (Base64Facts.code_bounded a);
    try pose proof (Base64Facts.code_bounded b);
    try pose proof (Base64Facts.code_bounded c);
    cbn [Base64.btoa hasComma];
    rewrite ?encodeSextet_not_comma by Base64.div_lia;
    rewrite ?IH; reflexivity.
Qed.

(** The second piece of the data URL is the base64 of the file. *)
Lemma split_dataURL (file : File) :
  includes (type file) "," = false ->
  nth_error (split (dataURL file)) 1 =
  Some (Base64.btoa (string_of_list_byte (bytes file))).
Proof.
  intros Htype. rewrite includes_comma in Htype. unfold dataURL.
  set (mediaType := if String.eqb (type file) EmptyString
                    then "application/octet-stream" else type file).
  assert (Hmedia : hasComma mediaType = false).
  { unfold mediaType. destruct (String.eqb (type file) EmptyString);
      [reflexivity|exact Htype]. }
  replace ("data:" ++ mediaType ++ ";base64," ++
           Base64.btoa (string_of_list_byte (bytes file)))
    with (("data:" ++ mediaType ++ ";base64") ++
          String ","%char (Base64.btoa (string_of_list_byte (bytes file)))).
  - rewrite split_at_comma.
    + rewrite split_whole by apply btoa_no_comma. reflexivity.
    + rewrite !hasComma_app, Hmedia. reflexivity.
  - rewrite !append_associative. reflexivity.
Qed.

(** *** The claims on the chunked reader *)

(** C3 (as amended).  For a file of size [S > 0] whose reads all succeed,
    the progress callback is called exactly [ceil(S / 1 MiB)] times, call
    number [i + 1] with [round((i + 1) / chunkCount * 40)]; the values
    never decrease, the last one is 40, and they increase strictly when
    there are at most 40 chunks: in particular for every file that
    [processFile] gives to the reader, whose size lies above 2 MiB and
    within 9 MiB and which has 3 to 9 chunks. *)
Theorem progress_reports (file : File) (faults : Faults) :
  0 < size file ->
  succeeds file faults ->
  let values := reports (fst (readFileChunked file faults)) in
  let count := chunkCount file in
  chunkSize * (count - 1) < size file <= chunkSize * count /\
  Z.of_nat (List.length values) = count /\
  (forall i, (i < List.length values)%nat ->
     nth i values Infinite =
     Finite ((80 * (Z.of_nat i + 1) + count) / (2 * count))) /\
  (forall i j, (i < j < List.length values)%nat ->
     percentLe (nth i values Infinite) (nth j values Infinite)) /\
  last values Infinite = Finite 40 /\
  (count <= 40 ->
   forall i j, (i < j < List.length values)%nat ->
     percentLt (nth i values Infinite) (nth j values Infinite)) /\
  (CHUNK_THRESHOLD < size file <= MAX_FILE_SIZE ->
   3 <= count <= 9 /\
   forall i j, (i < j < List.length values)%nat ->
     percentLt (nth i values Infinite) (nth j values Infinite)).
Proof.
  intros Hsize Hok values count.
  pose proof (chunkCount_pos file Hsize) as Hcount. fold count in Hcount.
  assert (Hvalues : values =
    map (fun i => percent (0 + 1 + Z.of_nat i) count) (seq 0 (Z.to_nat count))).
  { unfold values. rewrite (proj2 (readFileChunked_succeeds file faults Hok)).
    unfold reportsFrom. fold count. do 2 f_equal. lia. }
  assert (Hlen : List.length values = Z.to_nat count)
    by now rewrite Hvalues, length_map, length_seq.
  assert (Hnth : forall i, (i < List.length values)%nat ->
            nth i values Infinite =
            Finite ((80 * (Z.of_nat i + 1) + count) / (2 * count))).
  { intros i Hi. rewrite Hvalues, nth_map_seq by lia.
    rewrite percent_finite by exact Hcount. do 3 f_equal. lia. }
  split; [apply chunkCount_ceiling|].
  split; [lia|].
  split; [exact Hnth|].
  split; [|split; [|split]].
  - intros i j Hij. rewrite !Hnth by lia. cbn.
    apply round_monotone; lia.
  - rewrite Hvalues.
    replace (Z.to_nat count) with (S (Z.to_nat (count - 1))) by lia.
    rewrite seq_S, map_app. cbn [map]. rewrite last_last.
    replace (0 + 1 + Z.of_nat (0 + Z.to_nat (count - 1))) with count by lia.
    now apply percent_full.
  - intros Hsmall i j Hij. rewrite !Hnth by lia. cbn.
    apply round_strict; lia.
  - intros Hgate.
    pose proof (application_chunk_range file Hgate) as Hrange. fold count in Hrange.
    split; [exact Hrange|].
    intros i j Hij. rewrite !Hnth by lia. cbn.
    apply round_strict; lia.
Qed.

(** C4.  When no read fails, the promise of the chunked reader resolves,
    and decoding the base64 text it resolves with gives the bytes of the
    file, whatever its size and content. *)
Theorem chunked_round_trip (file : File) (faults : Faults) :
  succeeds file faults ->
  exists text,
    snd (readFileChunked file faults) = Some (Resolved text) /\
    Base64.decode text = Some (bytes file).
Proof.
  intros Hok. exists (Base64.btoa (string_of_list_byte (bytes file))).
  split; [apply (readFileChunked_succeeds file faults Hok)|].
  apply Base64Facts.decode_btoa.
Qed.

(** C9.  When one of the reads of a run fails, the promise rejects with
    the error event of the first read that fails; it does not resolve with
    any text, and no read is started after the failed one. *)
Theorem read_error_rejects (file : File) (faults : Faults) (k : Z) :
  0 <= k < readsNeeded file ->
  faults k <> None ->
  exists j errorEvent,
    0 <= j <= k /\
    faults j = Some errorEvent /\
    (forall i, 0 <= i < j -> faults i = None) /\
    snd (readFileChunked file faults) = Some (Rejected errorEvent) /\
    (forall text, snd (readFileChunked file faults) <> Some (Resolved text)) /\
    readCount (fst (readFileChunked file faults)) = Z.to_nat (j + 1).
Proof.
  intros Hk Hbad. pose proof (chunkCount_nonneg file) as Hcount.
  destruct (first_fault faults (Z.to_nat (k + 1)))
    as [Hnone|(j & e & Hj & Hfault & Hfirst)].
  - exfalso. apply Hbad, Hnone. lia.
  - exists j, e.
    destruct (readFrom_fails (S (Z.to_nat (chunkCount file))) file faults 0 [] j e)
      as (Hout & Hreads & _); unfold readsNeeded in Hk; try lia; try assumption.
    cbn zeta in Hout, Hreads. fold (readFileChunked file faults) in Hout, Hreads.
    split; [lia|]. do 3 (split; [assumption|]). split.
    + intros text. rewrite Hout. discriminate.
    + rewrite Hreads. f_equal. lia.
Qed.


(** *** Concrete files *)

Lemma noFaults_succeeds (file : File) : succeeds file noFaults.
Proof. intros k _. reflexivity. Qed.

Lemma size_lecture3 : size lecture3 = 2 * chunkSize + 1.
Proof.
  unfold size, lecture3. cbn [bytes].
  rewrite repeat_length, Z2Nat.id by lia. reflexivity.
Qed.

Lemma chunkCount_lecture3 : chunkCount lecture3 = 3.
Proof. unfold chunkCount. rewrite size_lecture3. reflexivity. Qed.

Lemma progress_reports_witness :
  let values := reports (fst (readFileChunked lecture3 noFaults)) in
  let count := chunkCount lecture3 in
  chunkSize * (count - 1) < size lecture3 <= chunkSize * count /\
  Z.of_nat (List.length values) = count /\
  (forall i, (i < List.length values)%nat ->
     nth i values Infinite =
     Finite ((80 * (Z.of_nat i + 1) + count) / (2 * count))) /\
  (forall i j, (i < j < List.length values)%nat ->
     percentLe (nth i values Infinite) (nth j values Infinite)) /\
  last values Infinite = Finite 40 /\
  (count <= 40 ->
   forall i j, (i < j < List.length values)%nat ->
     percentLt (nth i values Infinite) (nth j values Infinite)) /\
  (CHUNK_THRESHOLD < size lecture3 <= MAX_FILE_SIZE ->
   3 <= count <= 9 /\
   forall i j, (i < j < List.length values)%nat ->
     percentLt (nth i values Infinite) (nth j values Infinite)).
Proof.
  apply (progress_reports lecture3 noFaults).
  - unfold size, lecture3. cbn [bytes].
    rewrite repeat_length, Z2Nat.id by lia. lia.
  - intros k _. reflexivity.
Defined.

(** The three reports of that file, which lies within the sizes that
    [processFile] reads in chunks. *)
Example lecture3_reports :
  CHUNK_THRESHOLD < size lecture3 <= MAX_FILE_SIZE /\
  reports (fst (readFileChunked lecture3 noFaults)) =
    [Finite 13; Finite 27; Finite 40].
Proof.
  split.
  - rewrite size_lecture3. unfold CHUNK_THRESHOLD, MAX_FILE_SIZE, chunkSize. lia.
  - rewrite (proj2 (readFileChunked_succeeds lecture3 noFaults
                      (noFaults_succeeds lecture3))).
    unfold reportsFrom. rewrite chunkCount_lecture3. reflexivity.
Qed.

Lemma chunkCount_lecture41 : chunkCount lecture41 = 41.
Proof.
  unfold chunkCount, size, lecture41. cbn [bytes].
  rewrite repeat_length, Z2Nat.id by lia. reflexivity.
Qed.

(** C3, as stated of every file, fails at both ends.  For the empty file
    the callback is called once, not [ceil(0 / 1 MiB) = 0] times, and with
    [Infinity], not 40.  For a file of 41 MiB the 20th and the 21st call
    both report 20.  Both files lie outside the sizes for which
    [processFile] calls the reader. *)
Lemma progress_reports_counterexample :
  (size emptyFile = 0 /\
   reports (fst (readFileChunked emptyFile noFaults)) = [Infinite]) /\
  (size lecture41 = 41 * chunkSize /\
   nth 19 (reports (fst (readFileChunked lecture41 noFaults))) Infinite = Finite 20 /\
   nth 20 (reports (fst (readFileChunked lecture41 noFaults))) Infinite = Finite 20).
Proof.
  split; [split; reflexivity|].
  split.
  - unfold size, lecture41. cbn [bytes].
    rewrite repeat_length, Z2Nat.id by lia. reflexivity.
  - rewrite (proj2 (readFileChunked_succeeds lecture41 noFaults
                      (noFaults_succeeds lecture41))).
    unfold reportsFrom. rewrite chunkCount_lecture41.
    split; reflexivity.
Qed.

Lemma chunked_round_trip_witness :
  exists text,
    snd (readFileChunked greeting noFaults) = Some (Resolved text) /\
    Base64.decode text = Some (bytes greeting).
Proof.
  apply (chunked_round_trip greeting noFaults). apply noFaults_succeeds.
Defined.

Lemma read_error_rejects_witness :
  exists j errorEvent,
    0 <= j <= 0 /\
    (fun _ => Some notReadable) j = Some errorEvent /\
    (forall i, 0 <= i < j -> (fun _ : Z => Some notReadable) i = None) /\
    snd (readFileChunked greeting (fun _ => Some notReadable)) =
      Some (Rejected errorEvent) /\
    (forall text,
       snd (readFileChunked greeting (fun _ => Some notReadable)) <>
       Some (Resolved text)) /\
    readCount (fst (readFileChunked greeting (fun _ => Some notReadable))) =
      Z.to_nat (j + 1).
Proof.
  apply (read_error_rejects greeting (fun _ => Some notReadable) 0).
  - vm_compute. split; [discriminate|reflexivity].
  - discriminate.
Defined.



(** Runs on small files. *)
Example greeting_chunked :
  readFileChunked greeting noFaults =
  ([ReadBlob 0 12; Report (Finite 40)], Some (Resolved "SGVsbG8sIHdvcmxk")).
Proof. reflexivity. Qed.

Example greeting_single_shot :
  fileToBase64 greeting noFaults = Resolved (Some "SGVsbG8sIHdvcmxk").
Proof. reflexivity. Qed.

Example one_byte_chunked :
  readFileChunked {| bytes := [x4d]; type := EmptyString |} noFaults =
  ([ReadBlob 0 1; Report (Finite 40)], Some (Resolved "TQ==")).
Proof. reflexivity. Qed.

End ShellFacts.

(* ================================================================= *)
(** ** Further properties of the executor *)

Module RetryLaws.

Import Js Retry Samples MoreSamples RetryFacts.

Lemma classify_invalid msg :
  classify msg = InvalidArgument <->
  payloadMarker msg = false /\ invalidMarker msg = true.
Proof.
  unfold classify.
  destruct (payloadMarker msg), (invalidMarker msg), (quotaMarker msg),
    (transientMarker msg); split; intros H; try congruence;
    try (split; reflexivity); destruct H; congruence.
Qed.

Lemma classify_unknown msg :
  classify msg = Unknown <->
  payloadMarker msg = false /\ invalidMarker msg = false /\
  quotaMarker msg = false /\ transientMarker msg = false.
Proof.
  unfold classify.
  destruct (payloadMarker msg), (invalidMarker msg), (quotaMarker msg),
    (transientMarker msg); split; intros H; try congruence;
    try (repeat split; reflexivity); destruct H as (? & ? & ? & ?); congruence.
Qed.

Section Laws.

Variable toLowerCase : string -> string.
Context {T : Type}.

(** The shape of any run: at least one call, at most one more than the
    retries allowed, and the doubling sleeps in between. *)
Lemma retryFrom_shape (fuel : nat) : forall (fn : Operation T) attempt retries delay,
  (Z.to_nat retries < fuel)%nat ->
  let run := retryFrom toLowerCase fuel fn attempt retries delay in
  (1 <= invocations (fst run) <= Z.to_nat retries + 1)%nat /\
  sleeps (fst run) = backoff (invocations (fst run) - 1) delay.
Proof.
  induction fuel as [|fuel IH]; intros fn attempt retries delay Hfuel; [lia|].
  cbn zeta. cbn [retryFrom].
  assert (Hone : forall o : option (Outcome T),
    (1 <= invocations (fst ([Invoke attempt], o)) <= Z.to_nat retries + 1)%nat /\
    sleeps (fst ([Invoke attempt], o)) =
      backoff (invocations (fst ([Invoke attempt], o)) - 1) delay).
  { intros o. cbn. split; [lia|reflexivity]. }
  assert (Hmore : forall warn, retries > 0 ->
    let run := andThen [Invoke attempt; warn; Sleep delay]
                 (retryFrom toLowerCase fuel fn (S attempt) (retries - 1) (delay * 2)) in
    (forall d, warn <> Sleep d) -> (forall a, warn <> Invoke a) ->
    (1 <= invocations (fst run) <= Z.to_nat retries + 1)%nat /\
    sleeps (fst run) = backoff (invocations (fst run) - 1) delay).
  { intros warn Hr run Hs Hi.
    destruct (IH fn (S attempt) (retries - 1) (delay * 2) ltac:(lia)) as [Hn Hsl].
    unfold run, andThen. cbn [fst].
    rewrite invocations_app, sleeps_app, Hsl.
    destruct warn; try (exfalso; eapply Hs; reflexivity);
      try (exfalso; eapply Hi; reflexivity); cbn [invocations sleeps app Nat.add];
      (split; [lia|]);
      replace (S (invocations (fst (retryFrom toLowerCase fuel fn (S attempt)
                                     (retries - 1) (delay * 2)))) - 1)%nat
        with (S (invocations (fst (retryFrom toLowerCase fuel fn (S attempt)
                                     (retries - 1) (delay * 2))) - 1)) by lia;
      reflexivity. }
  destruct (fn attempt) as [t|err]; [apply Hone|].
  destruct (errorText toLowerCase err) as [msg|e]; [|apply Hone].
  destruct (payloadMarker msg); [apply Hone|].
  destruct (invalidMarker msg); [apply Hone|].
  destruct (quotaMarker msg).
  - destruct (retries >? 0) eqn:Hr; [|apply Hone].
    apply Z.gtb_lt in Hr. apply Hmore; [lia|discriminate|discriminate].
  - destruct (retries >? 0) eqn:Hr; cbn [andb]; [|apply Hone].
    destruct (transientMarker msg); [|apply Hone].
    apply Z.gtb_lt in Hr. apply Hmore; [lia|discriminate|discriminate].
Qed.

(** Apart from the warnings, a run is a call, then a sleep and a call for
    every retry: the calls numbered from [attempt], the sleeps doubling
    from [delay]. *)
Lemma retryFrom_schedule (fuel : nat) : forall (fn : Operation T) attempt retries delay,
  (Z.to_nat retries < fuel)%nat ->
  let run := retryFrom toLowerCase fuel fn attempt retries delay in
  withoutWarnings (fst run) = schedule (invocations (fst run) - 1) attempt delay.
Proof.
  induction fuel as [|fuel IH]; intros fn attempt retries delay Hfuel; [lia|].
  cbn zeta. cbn [retryFrom].
  assert (Hone : forall o : option (Outcome T),
    withoutWarnings (fst ([Invoke attempt], o)) =
      schedule (invocations (fst ([Invoke attempt], o)) - 1) attempt delay).
  { intros o. reflexivity. }
  assert (Hmore : forall warn, retries > 0 ->
    let run := andThen [Invoke attempt; warn; Sleep delay]
                 (retryFrom toLowerCase fuel fn (S attempt) (retries - 1) (delay * 2)) in
    (forall d, warn <> Sleep d) -> (forall a, warn <> Invoke a) ->
    withoutWarnings (fst run) = schedule (invocations (fst run) - 1) attempt delay).
  { intros warn Hr run Hs Hi.
    pose proof (IH fn (S attempt) (retries - 1) (delay * 2) ltac:(lia)) as Hrest.
    destruct (retryFrom_shape fuel fn (S attempt) (retries - 1) (delay * 2) ltac:(lia))
      as [Hn _].
    cbn zeta in Hrest.
    unfold run, andThen. cbn [fst].
    destruct warn; try (exfalso; eapply Hs; reflexivity);
      try (exfalso; eapply Hi; reflexivity);
      cbn [withoutWarnings invocations app];
      rewrite Hrest;
      replace (S (invocations (fst (retryFrom toLowerCase fuel fn (S attempt)
                                     (retries - 1) (delay * 2)))) - 1)%nat
        with (S (invocations (fst (retryFrom toLowerCase fuel fn (S attempt)
                                     (retries - 1) (delay * 2))) - 1)) by lia;
      reflexivity. }
  destruct (fn attempt) as [t|err]; [apply Hone|].
  destruct (errorText toLowerCase err) as [msg|e]; [|apply Hone].
  destruct (payloadMarker msg); [apply Hone|].
  destruct (invalidMarker msg); [apply Hone|].
  destruct (quotaMarker msg).
  - destruct (retries >? 0) eqn:Hr; [|apply Hone].
    apply Z.gtb_lt in Hr. apply Hmore; [lia|discriminate|discriminate].
  - destruct (retries >? 0) eqn:Hr; cbn [andb]; [|apply Hone].
    destruct (transientMarker msg); [|apply Hone].
    apply Z.gtb_lt in Hr. apply Hmore; [lia|discriminate|discriminate].
Qed.

(** X1.  For an operation each of whose calls settles (the only operations
    of the model), a run of [retry] makes [n] calls of it with
    [1 <= n <= max(retries, 0) + 1], and apart from the console warnings
    its events are exactly: call 0, sleep [delay], call 1, sleep
    [2 delay], ..., sleep [2^(n-2) delay], call [n-1].  So every sleep
    stands between two calls, none follows the last call, and
    [retries <= 0] means one call and no sleep. *)
Theorem retry_bounded (fn : Operation T) retries delay :
  let run := retry toLowerCase fn retries delay in
  let n := invocations (fst run) in
  (1 <= n <= Z.to_nat retries + 1)%nat /\
  withoutWarnings (fst run) = schedule (n - 1) 0 delay /\
  sleeps (fst run) = map (fun i => delay * 2 ^ Z.of_nat i) (seq 0 (n - 1)).
Proof.
  cbn zeta.
  destruct (retryFrom_shape (S (Z.to_nat retries)) fn 0%nat retries delay ltac:(lia))
    as [Hn Hsleeps].
  split; [exact Hn|]. split.
  - apply retryFrom_schedule. lia.
  - rewrite <- backoff_formula. exact Hsleeps.
Qed.

(** A run that recovers: [k] retried failures, then a success. *)
Lemma retryFrom_recovers (k : nat) : forall fuel (fn : Operation T) attempt retries delay v,
  (k < fuel)%nat ->
  Z.of_nat k <= retries ->
  (forall i, (i < k)%nat -> retryable toLowerCase fn (attempt + i)) ->
  fn (attempt + k)%nat = Resolved v ->
  let run := retryFrom toLowerCase fuel fn attempt retries delay in
  snd run = Some (Resolved v) /\
  invocations (fst run) = S k /\
  sleeps (fst run) = backoff k delay.
Proof.
  induction k as [|k IH]; intros fuel fn attempt retries delay v Hfuel Hk Hfail Hok;
    (destruct fuel as [|fuel]; [lia|]); cbn zeta.
  - rewrite Nat.add_0_r in Hok. cbn [retryFrom]. rewrite Hok. cbn. auto.
  - assert (Hpos : (retries >? 0) = true) by (apply Z.gtb_lt; lia).
    destruct (IH fuel fn (S attempt) (retries - 1) (delay * 2) v) as (Ho & Hi & Hs);
      try lia.
    + intros i Hi. replace (S attempt + i)%nat with (attempt + S i)%nat by lia.
      apply Hfail. lia.
    + now replace (S attempt + k)%nat with (attempt + S k)%nat by lia.
    + pose proof (Hfail 0%nat ltac:(lia)) as H0. rewrite Nat.add_0_r in H0.
      destruct H0 as [H0|H0];
        [rewrite (step_quota _ _ _ _ _ _ H0)|rewrite (step_transient _ _ _ _ _ _ H0)];
        rewrite Hpos; unfold andThen; cbn [fst snd];
        rewrite invocations_app, sleeps_app, Ho, Hi, Hs; cbn; auto.
Qed.

(** X2.  When the first [k <= retries] calls fail in a retried class and
    the next call succeeds, [retry] resolves with the value of that call,
    after [k + 1] calls and the sleeps [delay, ..., 2^(k-1) delay]. *)
Theorem retry_recovers (fn : Operation T) (k : nat) retries delay v :
  Z.of_nat k <= retries ->
  (forall i, (i < k)%nat -> retryable toLowerCase fn i) ->
  fn k = Resolved v ->
  let run := retry toLowerCase fn retries delay in
  snd run = Some (Resolved v) /\
  invocations (fst run) = S k /\
  sleeps (fst run) = map (fun i => delay * 2 ^ Z.of_nat i) (seq 0 k).
Proof.
  intros Hk Hfail Hok. cbn zeta. rewrite <- backoff_formula.
  apply (retryFrom_recovers k (S (Z.to_nat retries)) fn 0%nat retries delay v);
    try assumption; lia.
Qed.

(** X3.  With [retries > 0], the operation is called a second time if and
    only if its first call fails in a retried class (QuotaExceeded or
    Transient): a success, a stringification that throws, and the classes
    PayloadTooLarge, InvalidArgument and Unknown all end the run at the
    first call. *)
Theorem second_call_iff_retryable (fn : Operation T) retries delay :
  retries > 0 ->
  (2 <= invocations (fst (retry toLowerCase fn retries delay)))%nat <->
  retryable toLowerCase fn 0.
Proof.
  intros Hr. assert (Hpos : (retries >? 0) = true) by (apply Z.gtb_lt; lia).
  unfold retry.
  pose proof (retryFrom_shape (Z.to_nat retries) fn 1%nat (retries - 1) (delay * 2)
                ltac:(lia)) as [Hn _].
  cbn zeta in Hn.
  split.
  - cbn [retryFrom].
    destruct (fn 0%nat) as [t|err] eqn:Hfn; [cbn; lia|].
    destruct (errorText toLowerCase err) as [msg|e] eqn:Htext; [|cbn; lia].
    destruct (payloadMarker msg) eqn:Hp; [cbn; lia|].
    destruct (invalidMarker msg) eqn:Hi; [cbn; lia|].
    destruct (quotaMarker msg) eqn:Hq.
    + intros _. left. exists err, msg. repeat split; try assumption.
      apply classify_quota. auto.
    + rewrite Hpos. cbn [andb].
      destruct (transientMarker msg) eqn:Ht; [|cbn; lia].
      intros _. right. exists err, msg. repeat split; try assumption.
      apply classify_transient. auto.
  - intros [H|H];
      [rewrite (step_quota _ _ _ _ _ _ H)|rewrite (step_transient _ _ _ _ _ _ H)];
      rewrite Hpos; unfold andThen; cbn [fst];
      rewrite invocations_app; cbn; lia.
Qed.

(** Where the outcome of a run comes from. *)
Lemma retryFrom_provenance (fuel : nat) :
  forall (fn : Operation T) attempt retries delay o,
  let run := retryFrom toLowerCase fuel fn attempt retries delay in
  snd run = Some o ->
  (1 <= invocations (fst run))%nat /\
  let last := fn (attempt + invocations (fst run) - 1)%nat in
  (o = last /\
   forall err, last = Rejected err ->
     exists msg, errorText toLowerCase err = Normal msg /\
       (classify msg = Transient \/ classify msg = Unknown)) \/
  (exists err, last = Rejected err /\
     ((exists e, errorText toLowerCase err = Abrupt e /\ o = Rejected e) \/
      (exists msg, errorText toLowerCase err = Normal msg /\
         ((classify msg = PayloadTooLarge /\
           o = Rejected (FileTooLargeError fileTooLargeText)) \/
          (classify msg = InvalidArgument /\
           o = Rejected (UnsupportedFormatError unsupportedFormatText)) \/
          (classify msg = QuotaExceeded /\
           o = Rejected (QuotaExceededError quotaExceededText)))))).
Proof.
  induction fuel as [|fuel IH]; intros fn attempt retries delay o; cbn zeta;
    [discriminate|].
  assert (Hrec : forall warn,
    (forall a, warn <> Invoke a) ->
    let run := andThen [Invoke attempt; warn; Sleep delay]
                 (retryFrom toLowerCase fuel fn (S attempt) (retries - 1) (delay * 2)) in
    snd run = Some o ->
    (1 <= invocations (fst run))%nat /\
    let last := fn (attempt + invocations (fst run) - 1)%nat in
    (o = last /\
     forall err, last = Rejected err ->
       exists msg, errorText toLowerCase err = Normal msg /\
         (classify msg = Transient \/ classify msg = Unknown)) \/
    (exists err, last = Rejected err /\
       ((exists e, errorText toLowerCase err = Abrupt e /\ o = Rejected e) \/
        (exists msg, errorText toLowerCase err = Normal msg /\
           ((classify msg = PayloadTooLarge /\
             o = Rejected (FileTooLargeError fileTooLargeText)) \/
            (classify msg = InvalidArgument /\
             o = Rejected (UnsupportedFormatError unsupportedFormatText)) \/
            (classify msg = QuotaExceeded /\
             o = Rejected (QuotaExceededError quotaExceededText))))))).
  { intros warn Hwarn run Hrun. unfold run, andThen in *. cbn [fst snd] in *.
    destruct (IH fn (S attempt) (retries - 1) (delay * 2) o Hrun) as [Hn Hcase].
    cbn zeta in Hcase.
    assert (Hinv : invocations
              ([Invoke attempt; warn; Sleep delay] ++
               fst (retryFrom toLowerCase fuel fn (S attempt) (retries - 1) (delay * 2))) =
            S (invocations
                 (fst (retryFrom toLowerCase fuel fn (S attempt) (retries - 1) (delay * 2))))).
    { rewrite invocations_app.
      destruct warn; try (exfalso; eapply Hwarn; reflexivity); reflexivity. }
    rewrite Hinv. split; [lia|].
    replace (attempt +
             S (invocations
                  (fst (retryFrom toLowerCase fuel fn (S attempt) (retries - 1) (delay * 2))))
             - 1)%nat
      with (S attempt +
            invocations
              (fst (retryFrom toLowerCase fuel fn (S attempt) (retries - 1) (delay * 2)))
            - 1)%nat by lia.
    exact Hcase. }
  cbn [retryFrom].
  replace (attempt + 1 - 1)%nat with attempt by lia.
  destruct (fn attempt) as [t|err] eqn:Hfn.
  { cbn. intros [= <-]. split; [lia|]. replace (attempt + 1 - 1)%nat with attempt by lia.
    left. rewrite Hfn. split; [reflexivity|discriminate]. }
  destruct (errorText toLowerCase err) as [msg|e] eqn:Htext.
  2:{ cbn. intros [= <-]. split; [lia|]. replace (attempt + 1 - 1)%nat with attempt by lia.
      right. exists err. split; [exact Hfn|]. left. now exists e. }
  destruct (payloadMarker msg) eqn:Hp.
  { cbn. intros [= <-]. split; [lia|]. replace (attempt + 1 - 1)%nat with attempt by lia.
    right. exists err. split; [exact Hfn|]. right. exists msg. split; [exact Htext|].
    left. split; [now apply classify_payload|reflexivity]. }
  destruct (invalidMarker msg) eqn:Hi.
  { cbn. intros [= <-]. split; [lia|]. replace (attempt + 1 - 1)%nat with attempt by lia.
    right. exists err. split; [exact Hfn|]. right. exists msg. split; [exact Htext|].
    right. left. split; [apply classify_invalid; auto|reflexivity]. }
  destruct (quotaMarker msg) eqn:Hq.
  { destruct (retries >? 0); [apply Hrec; discriminate|].
    cbn. intros [= <-]. split; [lia|]. replace (attempt + 1 - 1)%nat with attempt by lia.
    right. exists err. split; [exact Hfn|]. right. exists msg. split; [exact Htext|].
    right. right. split; [apply classify_quota; auto|reflexivity]. }
  destruct ((retries >? 0) && transientMarker msg) eqn:Hretry;
    [apply Hrec; discriminate|].
  cbn. intros [= <-]. split; [lia|]. replace (attempt + 1 - 1)%nat with attempt by lia.
  left. rewrite Hfn. split; [reflexivity|].
  intros err' [= <-]. exists msg. split; [exact Htext|].
  destruct (transientMarker msg) eqn:Ht.
  - left. apply classify_transient. auto.
  - right. apply classify_unknown. auto.
Qed.

(** X4.  [retry] never rejects with anything of its own making except its
    three terminal errors, each for the matching class of the last
    failure, and the error of a stringification that throws: otherwise the
    promise settles exactly as the last call of the operation did, a
    rejection being passed on unchanged only for the classes Transient
    and Unknown. *)
Theorem retry_provenance (fn : Operation T) retries delay o :
  let run := retry toLowerCase fn retries delay in
  snd run = Some o ->
  let last := fn (invocations (fst run) - 1)%nat in
  (o = last /\
   forall err, last = Rejected err ->
     exists msg, errorText toLowerCase err = Normal msg /\
       (classify msg = Transient \/ classify msg = Unknown)) \/
  (exists err, last = Rejected err /\
     ((exists e, errorText toLowerCase err = Abrupt e /\ o = Rejected e) \/
      (exists msg, errorText toLowerCase err = Normal msg /\
         ((classify msg = PayloadTooLarge /\
           o = Rejected (FileTooLargeError fileTooLargeText)) \/
          (classify msg = InvalidArgument /\
           o = Rejected (UnsupportedFormatError unsupportedFormatText)) \/
          (classify msg = QuotaExceeded /\
           o = Rejected (QuotaExceededError quotaExceededText)))))).
Proof.
  cbn zeta. intros Hrun.
  exact (proj2 (retryFrom_provenance _ fn 0%nat retries delay o Hrun)).
Qed.

End Laws.

(** *** Concrete runs *)

Lemma retry_recovers_witness :
  let run := retry asciiLower recovering 3 100 in
  snd run = Some (Resolved tt) /\
  invocations (fst run) = 3%nat /\
  sleeps (fst run) = map (fun i => 100 * 2 ^ Z.of_nat i) (seq 0 2).
Proof.
  apply (retry_recovers asciiLower recovering 2 3 100 tt).
  - lia.
  - intros i Hi. right. exists serviceUnavailable, (asciiLower "503 Service Unavailable").
    destruct i as [|[|i]]; [repeat split; reflexivity..|lia].
  - reflexivity.
Defined.

Lemma second_call_iff_retryable_witness :
  (2 <= invocations (fst (retry asciiLower (always serviceUnavailable) 3 2000)))%nat <->
  retryable asciiLower (always serviceUnavailable) 0.
Proof.
  apply (second_call_iff_retryable asciiLower (always serviceUnavailable) 3 2000). lia.
Defined.

Lemma retry_provenance_witness :
  let run := retry asciiLower (always emptyResult) 3 2000 in
  let o := Rejected emptyResult in
  let last := always emptyResult (invocations (fst run) - 1)%nat in
  (o = last /\
   forall err, last = Rejected err ->
     exists msg, errorText asciiLower err = Normal msg /\
       (classify msg = Transient \/ classify msg = Unknown)) \/
  (exists err, last = Rejected err /\
     ((exists e, errorText asciiLower err = Abrupt e /\ o = Rejected e) \/
      (exists msg, errorText asciiLower err = Normal msg /\
         ((classify msg = PayloadTooLarge /\
           o = Rejected (FileTooLargeError fileTooLargeText)) \/
          (classify msg = InvalidArgument /\
           o = Rejected (UnsupportedFormatError unsupportedFormatText)) \/
          (classify msg = QuotaExceeded /\
           o = Rejected (QuotaExceededError quotaExceededText)))))).
Proof.
  apply (retry_provenance asciiLower (always emptyResult) 3 2000 (Rejected emptyResult)).
  reflexivity.
Defined.

End RetryLaws.

(* ================================================================= *)
(** ** Properties of the callers of [retry] *)

Module ServiceFacts.

Import Js JsText Retry Service Samples MoreSamples RetryFacts.

(** The only error that serialisation throws. *)
Lemma serialize_abrupt :
  forall d e, Json.serialize d = Abrupt e -> e = TypeError Json.bigIntMessage.
Proof.
  fix IH 1.
  intros [ | |[|]|n|n|s|s|items|props] e; cbn [Json.serialize];
    try discriminate; try (intros [= <-]; reflexivity).
  - match goal with |- context [?elements items] =>
      assert (Hel : forall e', elements items = Abrupt e' ->
                               e' = TypeError Json.bigIntMessage) end.
    { induction items as [|x items IHitems]; intros e'; [discriminate|].
      destruct (Json.serialize x) as [o|ex] eqn:Hx.
      - match goal with |- context [match ?rest with Normal _ => _ | Abrupt _ => _ end] =>
          destruct rest as [parts|er] eqn:Hrest end; [discriminate|].
        intros [= <-]. now apply IHitems.
      - intros [= <-]. now apply (IH x). }
    match goal with |- context [match ?run with Normal _ => _ | Abrupt _ => _ end] =>
      destruct run as [parts|er] eqn:Hrun end; [discriminate|].
    intros [= <-]. now apply Hel.
  - match goal with |- context [?members props] =>
      assert (Hel : forall e', members props = Abrupt e' ->
                               e' = TypeError Json.bigIntMessage) end.
    { induction props as [|[k x] props IHprops]; intros e'; [discriminate|].
      destruct (Json.serialize x) as [o|ex] eqn:Hx.
      - match goal with |- context [match ?rest with Normal _ => _ | Abrupt _ => _ end] =>
          destruct rest as [parts|er] eqn:Hrest end; [discriminate|].
        intros [= <-]. now apply IHprops.
      - intros [= <-]. now apply (IH x). }
    match goal with |- context [match ?run with Normal _ => _ | Abrupt _ => _ end] =>
      destruct run as [parts|er] eqn:Hrun end; [discriminate|].
    intros [= <-]. now apply Hel.
Qed.

Section Wrappers.

Variable toLowerCase : string -> string.

(** The text that [retry] searches is the lower-cased text of the [catch]
    clause of [transcribeAudio]. *)
Lemma errorText_message (err : JsValue) (msg : string) :
  errorText toLowerCase err = Normal msg ->
  exists raw, message err = Normal raw /\ msg = toLowerCase raw.
Proof.
  destruct err as [name text|d]; [intros [= <-]; eexists; split; reflexivity|].
  destruct d as [ | |[|]|n|n|s|s|items|props];
    try (intros [= <-]; eexists; split; reflexivity);
    unfold errorText, message;
    destruct (Json.stringify _) as [[text|]|e]; try discriminate;
    intros [= <-]; eexists; split; reflexivity.
Qed.

Lemma errorText_abrupt (err e : JsValue) :
  errorText toLowerCase err = Abrupt e -> exists text, e = JError "TypeError" text.
Proof.
  destruct err as [name text|d]; [discriminate|].
  destruct d as [ | |[|]|n|n|s|s|items|props]; try discriminate;
    unfold errorText;
    destruct (Json.stringify _) as [[text|]|e'] eqn:Hs; try discriminate;
    intros [= <-]; try (eexists; reflexivity);
    rewrite (serialize_abrupt _ _ Hs); eexists; reflexivity.
Qed.

Lemma ownClass_name (error : JsValue) :
  ownClass error = true ->
  exists name text, error = JError name text /\
    In name ["QuotaExceededError"; "FileTooLargeError"; "UnsupportedFormatError";
             "NetworkTimeoutError"].
Proof.
  destruct error as [name text|d]; [|discriminate].
  unfold ownClass, instanceOf. intros H. exists name, text. split; [reflexivity|].
  repeat (apply orb_true_iff in H; destruct H as [H|H]);
    apply String.eqb_eq in H; subst; cbn; auto.
Qed.

(** The three ways out of the [catch] clause for an error that is not
    passed on. *)
Lemma transcribeAudioCatch_cases (error : JsValue) (raw : string) :
  ownClass error = false ->
  message error = Normal raw ->
  snd (transcribeAudioCatch toLowerCase error) = NetworkTimeoutError networkFailureText \/
  snd (transcribeAudioCatch toLowerCase error) = JError "Error" apiErrorText \/
  snd (transcribeAudioCatch toLowerCase error) =
    JError "Error"
      (processingFailedPrefix ++
       match error with JError _ text => text | JOther _ => unknownErrorText end).
Proof.
  intros Hown Hraw. unfold transcribeAudioCatch. fold (ownClass error).
  rewrite Hown, Hraw. cbn zeta.
  destruct (includes (toLowerCase raw) "xhr" || includes (toLowerCase raw) "network" ||
            includes (toLowerCase raw) "error code: 6" ||
            includes (toLowerCase raw) "rpc failed"); [left; reflexivity|].
  destruct (includes (toLowerCase raw) errorKeyMarker ||
            includes (toLowerCase raw) codeKeyMarker);
    [right; left; reflexivity|right; right; reflexivity].
Qed.

Context {T : Type}.

(** What the [catch] clause of [transcribeAudio] makes of a rejection of
    [retry]. *)
Lemma transcribeAudioCatch_after_retry (operation : Operation T) retries delay e :
  snd (retry toLowerCase operation retries delay) = Some (Rejected e) ->
  exists name text,
    snd (transcribeAudioCatch toLowerCase e) = JError name text /\
    In name errorClasses /\
    (In text serviceTexts \/
     (exists k thrownName thrownText,
        operation k = Rejected (JError thrownName thrownText) /\
        (text = thrownText \/ text = processingFailedPrefix ++ thrownText)) \/
     (exists k thrown errorName errorMessage,
        operation k = Rejected thrown /\
        errorText toLowerCase thrown = Abrupt (JError errorName errorMessage) /\
        text = processingFailedPrefix ++ errorMessage)).
Proof.
  intros Hrun.
  pose proof (RetryLaws.retryFrom_provenance toLowerCase _ operation 0%nat
                retries delay (Rejected e) Hrun) as [_ Hcase].
  cbn zeta in Hcase. fold (retry toLowerCase operation retries delay) in Hcase.
  set (k := (0 + invocations (fst (retry toLowerCase operation retries delay)) - 1)%nat)
    in Hcase.
  destruct Hcase as [[Hlast Horigin]|(err & Hlast & [(e' & Habrupt & He)|(msg & Htext & Hterm)])].
  - destruct (Horigin e (eq_sym Hlast)) as (msg & Htext & _).
    destruct (errorText_message e msg Htext) as (raw & Hraw & _).
    destruct (ownClass e) eqn:Hown.
    + destruct (ownClass_name e Hown) as (name & text & -> & Hname).
      exists name, text. unfold transcribeAudioCatch. fold (ownClass (JError name text)).
      rewrite Hown. split; [reflexivity|]. split.
      * cbn in Hname |- *. intuition.
      * right. left. exists k, name, text. split; [now symmetry|now left].
    + destruct (transcribeAudioCatch_cases e raw Hown Hraw) as [H|[H|H]]; rewrite H;
        eexists; eexists; (split; [reflexivity|]); (split; [cbn; auto 10|]).
      * left. cbn. auto 10.
      * left. cbn. auto 10.
      * destruct e as [name text|d].
        -- right. left. exists k, name, text. split; [now symmetry|now right].
        -- left. cbn. auto 10.
  - injection He as ->.
    destruct (errorText_abrupt err e' Habrupt) as [text ->].
    destruct (transcribeAudioCatch_cases (JError "TypeError" text) text eq_refl eq_refl)
      as [H|[H|H]]; rewrite H;
      eexists; eexists; (split; [reflexivity|]); (split; [cbn; auto 10|]).
    + left. cbn. auto 10.
    + left. cbn. auto 10.
    + right. right. exists k, err, "TypeError", text. auto.
  - destruct Hterm as [[_ He]|[[_ He]|[_ He]]]; injection He as ->;
      eexists; eexists; (split; [reflexivity|]); (split; [cbn; auto 10|]);
      left; cbn; auto 10.
Qed.

(** X5.  Of an outcome of [transcribeAudio] (retry with 5 retries, then
    its [catch] clause), for an operation that throws [Error]s or plain
    data ([undefined], [null], booleans, integers, BigInts, strings,
    symbols, arrays and objects of these, without cycles, [toJSON] or
    getters): a value it resolves with is one the
    operation resolved with; a rejection is always an [Error] of one of
    five classes (the four of the service or a plain [Error]), and its
    message is one of the six texts that the service writes itself, or
    the message of an [Error] that the operation threw, alone or after the
    prefix of a failed processing, or that prefix followed by the message
    of the error that stringifying a thrown value raised. *)
Theorem transcribeAudio_outcomes (operation : Operation T) (o : Outcome T) :
  snd (transcribeAudio toLowerCase operation) = Some o ->
  match o with
  | Resolved v => exists k, operation k = Resolved v
  | Rejected e =>
      exists name text,
        e = JError name text /\
        In name errorClasses /\
        (In text serviceTexts \/
         (exists k thrownName thrownText,
            operation k = Rejected (JError thrownName thrownText) /\
            (text = thrownText \/ text = processingFailedPrefix ++ thrownText)) \/
         (exists k thrown errorName errorMessage,
            operation k = Rejected thrown /\
            errorText toLowerCase thrown = Abrupt (JError errorName errorMessage) /\
            text = processingFailedPrefix ++ errorMessage))
  end.
Proof.
  unfold transcribeAudio, guarded.
  destruct (snd (retry toLowerCase operation 5 4000)) as [[v|e]|] eqn:Ho;
    cbn [snd]; [| |discriminate].
  - intros [= <-].
    pose proof (RetryLaws.retryFrom_provenance toLowerCase _ operation 0%nat
                  5 4000 (Resolved v) Ho) as [_ Hcase].
    cbn zeta in Hcase.
    destruct Hcase as [[Hlast _]|(err & _ & [(e' & _ & He)|(msg & _ & Hterm)])].
    + eexists. symmetry. exact Hlast.
    + discriminate.
    + destruct Hterm as [[_ He]|[[_ He]|[_ He]]]; discriminate.
  - intros [= <-].
    destruct (transcribeAudioCatch_after_retry operation 5 4000 e Ho)
      as (name & text & Hcatch & Hname & Htext).
    exists name, text. auto.
Qed.

Lemma prefix_weaken (a b : string) : forall hay,
  String.prefix (a ++ b) hay = true -> String.prefix a hay = true.
Proof.
  induction a as [|c a IH]; intros hay H; [destruct hay; reflexivity|].
  destruct hay as [|h hay]; [discriminate|]. cbn in H |- *.
  destruct (ascii_dec c h); [now apply IH|discriminate].
Qed.

(** A text that holds a marker holds every beginning of the marker. *)
Lemma includes_weaken (a b : string) : forall hay,
  includes hay (a ++ b) = true -> includes hay a = true.
Proof.
  induction hay as [|h hay IH]; cbn [includes]; intros H;
    apply orb_true_iff in H; destruct H as [H|H]; try discriminate;
    apply orb_true_iff; try (left; now apply (prefix_weaken a b)).
  right. now apply IH.
Qed.

(** X6.  When every call of the operation fails in the Transient class
    and the text of the last failure holds "rpc failed", "error code: 6",
    "xhr error" or "networkerror", while the thrown value is not of one of
    the four classes of the service, [transcribeAudio] calls the operation
    6 times, sleeping 4, 8, 16, 32 and 64 seconds in between, and then
    rejects with the [NetworkTimeoutError] of the service. *)
Theorem transcribeAudio_network_exhaustion (operation : Operation T) err msg :
  (forall k, failsAs toLowerCase operation k Transient) ->
  operation 5%nat = Rejected err ->
  errorText toLowerCase err = Normal msg ->
  includes msg "rpc failed" || includes msg "error code: 6" ||
    includes msg "xhr error" || includes msg "networkerror" = true ->
  ownClass err = false ->
  let run := transcribeAudio toLowerCase operation in
  snd run = Some (Rejected (NetworkTimeoutError networkFailureText)) /\
  invocations (fst (fst run)) = 6%nat /\
  sleeps (fst (fst run)) = [4000; 8000; 16000; 32000; 64000].
Proof.
  intros Hall Hlast Htext Hmark Hown. cbn zeta.
  assert (Hout : snd (retry toLowerCase operation 5 4000) = Some (Rejected err)).
  { unfold retry. change 5 with (Z.of_nat 5) at 2.
    rewrite (transient_run toLowerCase 5 _ operation 0%nat 4000); [|cbn; lia|exact Hall].
    now rewrite <- Hlast. }
  destruct (retryable_run toLowerCase 5 (S (Z.to_nat 5)) operation 0%nat 4000)
    as [Hinv Hsleeps]; [cbn; lia|intros k; right; apply Hall|].
  cbn zeta in Hinv, Hsleeps. change (Z.of_nat 5) with 5 in Hinv, Hsleeps.
  fold (retry toLowerCase operation 5 4000) in Hinv, Hsleeps.
  unfold transcribeAudio, guarded. rewrite Hout. cbn [fst snd].
  split; [|split; [exact Hinv|exact Hsleeps]].
  do 2 f_equal.
  destruct (errorText_message err msg Htext) as (raw & Hraw & ->).
  unfold transcribeAudioCatch. fold (ownClass err). rewrite Hown, Hraw. cbn zeta.
  assert (Hnet : includes (toLowerCase raw) "xhr" || includes (toLowerCase raw) "network" ||
                 includes (toLowerCase raw) "error code: 6" ||
                 includes (toLowerCase raw) "rpc failed" = true).
  { repeat (apply orb_true_iff in Hmark; destruct Hmark as [Hmark|Hmark]).
    - rewrite Hmark. now rewrite !orb_true_r.
    - rewrite Hmark. now rewrite !orb_true_r.
    - rewrite (includes_weaken "xhr" " error" _ Hmark). reflexivity.
    - rewrite (includes_weaken "network" "error" _ Hmark). now rewrite !orb_true_r. }
  rewrite Hnet. reflexivity.
Qed.

(** X7.  [generateSpeech] rejects only with an error of the class
    [QuotaExceededError] or with its own fixed error; when every call of
    the operation fails in the QuotaExceeded class, it calls the operation
    4 times and the terminal quota error of [retry] reaches the caller
    unchanged. *)
Theorem generateSpeech_outcomes (operation : Operation T) :
  (forall e, snd (generateSpeech toLowerCase operation) = Some (Rejected e) ->
     instanceOf "QuotaExceededError" e = true \/ e = JError "Error" speechErrorText) /\
  ((forall k, failsAs toLowerCase operation k QuotaExceeded) ->
   snd (generateSpeech toLowerCase operation) =
     Some (Rejected (QuotaExceededError quotaExceededText)) /\
   invocations (fst (fst (generateSpeech toLowerCase operation))) = 4%nat).
Proof.
  split.
  - unfold generateSpeech, guarded.
    destruct (snd (retryDefault toLowerCase operation)) as [[v|e']|]; try discriminate.
    cbn [snd]. intros e [= <-]. unfold generateSpeechCatch.
    destruct (instanceOf "QuotaExceededError" e') eqn:Hq; [left; exact Hq|right; reflexivity].
  - intros Hall.
    assert (Hout : snd (retryDefault toLowerCase operation) =
                   Some (Rejected (QuotaExceededError quotaExceededText))).
    { unfold retryDefault, retry. change 3 with (Z.of_nat 3) at 2.
      apply (quota_run toLowerCase 3); [cbn; lia|exact Hall]. }
    destruct (retryable_run toLowerCase 3 (S (Z.to_nat 3)) operation 0%nat 2000)
      as [Hinv _]; [cbn; lia|intros k; left; apply Hall|].
    cbn zeta in Hinv.
    unfold generateSpeech, guarded. rewrite Hout. cbn [fst snd]. split; [reflexivity|].
    exact Hinv.
Qed.

End Wrappers.

(** *** Concrete runs *)

Lemma transcribeAudio_network_exhaustion_witness :
  let run := transcribeAudio asciiLower (always rpcFailed) in
  snd run = Some (Rejected (NetworkTimeoutError networkFailureText)) /\
  invocations (fst (fst run)) = 6%nat /\
  sleeps (fst (fst run)) = [4000; 8000; 16000; 32000; 64000].
Proof.
  apply (transcribeAudio_network_exhaustion asciiLower (always rpcFailed) rpcFailed
           (asciiLower "RPC failed due to xhr error. error code: 6")).
  - apply always_failsAs with (msg := asciiLower "RPC failed due to xhr error. error code: 6");
      reflexivity.
  - reflexivity.
  - reflexivity.
  - reflexivity.
  - reflexivity.
Defined.

Lemma generateSpeech_outcomes_witness :
  snd (generateSpeech asciiLower (always tooManyRequests)) =
    Some (Rejected (QuotaExceededError quotaExceededText)) /\
  invocations (fst (fst (generateSpeech asciiLower (always tooManyRequests)))) = 4%nat.
Proof.
  apply (generateSpeech_outcomes asciiLower (always tooManyRequests)).
  apply always_failsAs
    with (msg := asciiLower "got status: 429 Too Many Requests. Quota exceeded.");
    reflexivity.
Defined.

Lemma transcribeAudio_outcomes_witness :
  exists name text,
    JError "Error" apiErrorText = JError name text /\
    In name errorClasses /\
    (In text serviceTexts \/
     (exists k thrownName thrownText,
        always rawApiError k = Rejected (JError thrownName thrownText) /\
        (text = thrownText \/ text = processingFailedPrefix ++ thrownText)) \/
     (exists k thrown errorName errorMessage,
        always rawApiError k = Rejected thrown /\
        errorText asciiLower thrown = Abrupt (JError errorName errorMessage) /\
        text = processingFailedPrefix ++ errorMessage)).
Proof.
  apply (transcribeAudio_outcomes asciiLower (always rawApiError)
           (Rejected (JError "Error" apiErrorText))).
  reflexivity.
Defined.

(** Ways out of the [catch] clause of [transcribeAudio], run on the
    model. *)
Example raw_api_error_is_hidden :
  snd (transcribeAudio asciiLower (always rawApiError)) =
  Some (Rejected (JError "Error" apiErrorText)).
Proof. reflexivity. Qed.

Example empty_result_is_reported :
  snd (transcribeAudio asciiLower (always emptyResult)) =
  Some (Rejected (JError "Error" (processingFailedPrefix ++ "Empty processing result"))).
Proof. reflexivity. Qed.

Example bigint_failure_is_reported :
  snd (transcribeAudio asciiLower (always (JOther (JObject [("code", JBigInt 429)])))) =
  Some (Rejected (JError "Error" (processingFailedPrefix ++ Json.bigIntMessage))).
Proof. reflexivity. Qed.

End ServiceFacts.

(* ================================================================= *)
(** ** Properties of the byte helpers and of type detection *)

Module LiveFacts.

Import Js JsText Shell Live Detection Samples MoreSamples.

Local Open Scope Z_scope.

Lemma binary_fold (buffer : list byte) : forall binary,
  fold_left (fun binary b => binary ++ String (ascii_of_byte b) EmptyString)
    buffer binary =
  binary ++ string_of_list_byte buffer.
Proof.
  induction buffer as [|b buffer IH]; intros binary; cbn [fold_left].
  - cbn. now rewrite ShellFacts.append_empty_r.
  - rewrite IH, ShellFacts.append_associative. reflexivity.
Qed.

Lemma arrayBufferToBase64_btoa (buffer : list byte) :
  arrayBufferToBase64 buffer = Base64.btoa (string_of_list_byte buffer).
Proof.
  unfold arrayBufferToBase64. now rewrite binary_fold.
Qed.

(** X8.  Decoding what [arrayBufferToBase64] wrote gives the buffer back:
    [base64ToArrayBuffer] does not throw on it and returns the same
    bytes. *)
Theorem live_round_trip (buffer : list byte) :
  base64ToArrayBuffer (arrayBufferToBase64 buffer) = Normal buffer.
Proof.
  unfold base64ToArrayBuffer.
  rewrite arrayBufferToBase64_btoa, Base64Facts.atob_btoa.
  f_equal. apply list_byte_of_string_of_list_byte.
Qed.

(** X9.  When no read fails, the text that the chunked reader resolves
    with is the text that [arrayBufferToBase64] gives for the bytes of the
    file: reading in chunks of 1 MiB and converting 32 KiB at a time gives
    what converting the whole buffer one byte at a time gives. *)
Theorem chunked_text_is_live_text (file : File) (faults : Faults) :
  succeeds file faults ->
  snd (readFileChunked file faults) =
    Some (Resolved (arrayBufferToBase64 (bytes file))).
Proof.
  intros Hok. rewrite arrayBufferToBase64_btoa.
  apply (ShellFacts.readFileChunked_succeeds file faults Hok).
Qed.

Lemma chunked_text_is_live_text_witness :
  snd (readFileChunked greeting noFaults) =
    Some (Resolved (arrayBufferToBase64 (bytes greeting))).
Proof.
  apply (chunked_text_is_live_text greeting noFaults).
  apply ShellFacts.noFaults_succeeds.
Defined.

(** *** Signatures *)

Lemma unhex_hexDigit n : (n < 16)%N -> unhex (hexDigit n) = n.
Proof.
  intros Hn. destruct n as [|p]; [reflexivity|].
  do 4 (destruct p as [p|p|]; try reflexivity); exfalso; lia.
Qed.

Lemma hexByte_injective (a b : byte) : hexByte a = hexByte b -> a = b.
Proof.
  unfold hexByte. intros [= H1 H2].
  pose proof (Byte.to_N_bounded a) as Ha. pose proof (Byte.to_N_bounded b) as Hb.
  apply (f_equal unhex) in H1, H2.
  rewrite !unhex_hexDigit in H1, H2 by Base64.div_lia.
  assert (HN : Byte.to_N a = Byte.to_N b) by Base64.div_lia.
  apply (f_equal Byte.of_N) in HN. rewrite !Byte.of_to_N in HN. congruence.
Qed.

Lemma prefix_empty (s : string) : String.prefix EmptyString s = true.
Proof. destruct s; reflexivity. Qed.

(** A text of hexadecimal codes starts with the codes of a pattern exactly
    when the data starts with the pattern. *)
Lemma prefix_hex (pattern : list byte) : forall data,
  String.prefix (hex pattern) (hex data) = true <->
  firstn (List.length pattern) data = pattern.
Proof.
  induction pattern as [|p pattern IH]; intros data.
  - cbn. rewrite prefix_empty. tauto.
  - destruct data as [|d data]; [cbn; split; discriminate|].
    cbn [hex List.length firstn].
    change (hexByte p ++ hex pattern)
      with (String (hexDigit (Byte.to_N p / 16))
              (String (hexDigit (Byte.to_N p mod 16)) (hex pattern))).
    change (hexByte d ++ hex data)
      with (String (hexDigit (Byte.to_N d / 16))
              (String (hexDigit (Byte.to_N d mod 16)) (hex data))).
    cbn [String.prefix].
    destruct (ascii_dec (hexDigit (Byte.to_N p / 16)) (hexDigit (Byte.to_N d / 16)))
      as [H1|H1];
      [destruct (ascii_dec (hexDigit (Byte.to_N p mod 16)) (hexDigit (Byte.to_N d mod 16)))
         as [H2|H2]|].
    + assert (p = d) by (apply hexByte_injective; unfold hexByte; congruence).
      subst d. rewrite IH. split; [congruence|]. now intros [= ->].
    + split; [discriminate|]. intros [= -> _]. contradiction.
    + split; [discriminate|]. intros [= -> _]. contradiction.
Qed.

Lemma length_hex (data : list byte) :
  String.length (hex data) = (2 * List.length data)%nat.
Proof.
  induction data as [|d data IH]; [reflexivity|].
  cbn [hex List.length].
  change (hexByte d ++ hex data)
    with (String (hexDigit (Byte.to_N d / 16))
            (String (hexDigit (Byte.to_N d mod 16)) (hex data))).
  cbn [String.length]. lia.
Qed.

Lemma slice_head (file : File) : slice file 0 4 = firstn 4 (bytes file).
Proof. reflexivity. Qed.

(** X10.  When its read succeeds, [getFileSignature] resolves with two
    upper-case hexadecimal digits for each of the first four bytes of the
    file (fewer for a shorter file), so that [signature.startsWith] of the
    codes of up to four bytes holds exactly when the file starts with
    those bytes. *)
Theorem signature_startsWith (file : File) (faults : Faults) (pattern : list byte) :
  faults 0 = None ->
  (List.length pattern <= 4)%nat ->
  exists signature,
    getFileSignature file faults = Some (Resolved signature) /\
    String.length signature = (2 * Nat.min 4 (List.length (bytes file)))%nat /\
    (startsWith signature (hex pattern) = true <->
     firstn (List.length pattern) (bytes file) = pattern).
Proof.
  intros Hread Hlen. exists (hex (slice file 0 4)).
  unfold getFileSignature. rewrite Hread. split; [reflexivity|].
  rewrite slice_head. split.
  - now rewrite length_hex, length_firstn.
  - unfold startsWith. rewrite prefix_hex, firstn_firstn.
    now replace (Nat.min (List.length pattern) 4) with (List.length pattern) by lia.
Qed.

Lemma signature_startsWith_witness :
  exists signature,
    getFileSignature pdf noFaults = Some (Resolved signature) /\
    String.length signature = (2 * Nat.min 4 (List.length (bytes pdf)))%nat /\
    (startsWith signature (hex [x25; x50; x44; x46]) = true <->
     firstn (List.length [x25; x50; x44; x46]) (bytes pdf) = [x25; x50; x44; x46]).
Proof.
  apply (signature_startsWith pdf noFaults [x25; x50; x44; x46]).
  - reflexivity.
  - cbn. lia.
Defined.

End LiveFacts.

(* ================================================================= *)
(** ** Properties of the routing in [processFile] *)

Module DetectionFacts.

Import Js JsText Shell Service Detection Samples MoreSamples.

Local Open Scope Z_scope.

Lemma hex_head_differs (pattern data : list byte) (a b : byte) :
  hd_error data = Some a -> hd_error pattern = Some b -> a <> b ->
  String.prefix (hex pattern) (hex (firstn 4 data)) = false.
Proof.
  intros Ha Hb Hne.
  destruct (String.prefix (hex pattern) (hex (firstn 4 data))) eqn:H; [|reflexivity].
  apply LiveFacts.prefix_hex in H.
  destruct pattern as [|p pattern]; [discriminate|].
  destruct data as [|d data]; [discriminate|].
  cbn in Ha, Hb, H. congruence.
Qed.

Lemma hex_head_matches (pattern data : list byte) :
  (List.length pattern <= 4)%nat ->
  firstn (List.length pattern) data = pattern ->
  String.prefix (hex pattern) (hex (firstn 4 data)) = true.
Proof.
  intros Hlen H. apply LiveFacts.prefix_hex. rewrite firstn_firstn.
  now replace (Nat.min (List.length pattern) 4) with (List.length pattern) by lia.
Qed.

Lemma head_of_start (pattern data : list byte) (b : byte) :
  firstn (List.length pattern) data = pattern ->
  hd_error pattern = Some b -> hd_error data = Some b.
Proof.
  destruct pattern as [|p pattern]; [discriminate|].
  destruct data as [|d data]; [discriminate|]. cbn. congruence.
Qed.

(** The signatures that [processFile] tests, as the codes of bytes; they
    differ in their first byte. *)
Ltac signatures :=
  change "D0CF11E0" with (hex [xd0; xcf; x11; xe0]);
  change "504B0304" with (hex [x50; x4b; x03; x04]);
  change "25504446" with (hex [x25; x50; x44; x46]);
  change "494433" with (hex [x49; x44; x33]);
  change "FFFB" with (hex [xff; xfb]);
  change "52494646" with (hex [x52; x49; x46; x46]);
  change "000000" with (hex [x00; x00; x00]).

Ltac decide_signatures Hstart :=
  let Hhead := fresh "Hhead" in
  pose proof (head_of_start _ _ _ Hstart eq_refl) as Hhead;
  match type of Hstart with
  | firstn (List.length ?q) _ = _ =>
      rewrite (hex_head_matches q _ ltac:(cbn; lia) Hstart)
  end;
  rewrite ?(hex_head_differs [xd0; xcf; x11; xe0] _ _ _ Hhead eq_refl ltac:(discriminate));
  rewrite ?(hex_head_differs [x50; x4b; x03; x04] _ _ _ Hhead eq_refl ltac:(discriminate));
  rewrite ?(hex_head_differs [x25; x50; x44; x46] _ _ _ Hhead eq_refl ltac:(discriminate));
  rewrite ?(hex_head_differs [x49; x44; x33] _ _ _ Hhead eq_refl ltac:(discriminate));
  rewrite ?(hex_head_differs [xff; xfb] _ _ _ Hhead eq_refl ltac:(discriminate));
  rewrite ?(hex_head_differs [x52; x49; x46; x46] _ _ _ Hhead eq_refl ltac:(discriminate));
  rewrite ?(hex_head_differs [x00; x00; x00] _ _ _ Hhead eq_refl ltac:(discriminate));
  rewrite ?andb_false_r, ?andb_false_l, ?orb_false_r, ?orb_true_r;
  cbn [andb orb negb].

Section Routing.

Variable toLowerCase : string -> string.

(** The routing of a file recognised as audio by its first bytes. *)
Lemma route_audio (file : File) (name : string) (pattern : list byte)
    (mimeType : string) :
  In (pattern, mimeType)
    [([x49; x44; x33], "audio/mpeg"); ([xff; xfb], "audio/mpeg");
     ([x52; x49; x46; x46], "audio/wav"); ([x00; x00; x00], "audio/mp4")] ->
  firstn (List.length pattern) (bytes file) = pattern ->
  startsWith (type file) "audio/" = false ->
  String.eqb (type file) "application/pdf" = false ->
  endsWith (toLowerCase name) ".lrec" = false ->
  isDocx name = false ->
  route toLowerCase name (type file) (hex (slice file 0 4)) = Transcribe mimeType /\
  instruction mimeType = TRANSCRIPTION_SYSTEM_INSTRUCTION.
Proof.
  intros Hin Hstart Haudio Hpdf Hlrec Hdocx.
  rewrite LiveFacts.slice_head.
  unfold route, mimeTypeFor, isPdf, isZip, startsWith in *.
  rewrite Hlrec, Hdocx, Hpdf, Haudio.
  signatures.
  cbn [In] in Hin.
  destruct Hin as [[= <- <-]|[[= <- <-]|[[= <- <-]|[[= <- <-]|[]]]]];
    decide_signatures Hstart; split; reflexivity.
Qed.

(** The routing of a file that starts as a PDF file does. *)
Lemma route_pdf (file : File) (name : string) :
  firstn 4 (bytes file) = [x25; x50; x44; x46] ->
  endsWith (toLowerCase name) ".lrec" = false ->
  isDocx name = false ->
  route toLowerCase name (type file) (hex (slice file 0 4)) =
    Transcribe "application/pdf" /\
  instruction "application/pdf" = DOCUMENT_SYSTEM_INSTRUCTION.
Proof.
  intros Hstart Hlrec Hdocx.
  rewrite LiveFacts.slice_head.
  unfold route, mimeTypeFor, isPdf, isZip, startsWith in *.
  rewrite Hlrec, Hdocx.
  signatures.
  change 4%nat with (List.length [x25; x50; x44; x46]) in Hstart.
  decide_signatures Hstart. split; reflexivity.
Qed.

(** A lecture within the size limit, all of whose reads succeed, and that
    the routing sends to transcription, reaches the call of
    [transcribeAudio] with the base64 text of the reader chosen by its
    size. *)
Lemma processFile_transcribes (file : File) (name : string)
    (signatureFaults faults : Faults) (mimeType : string) :
  size file <= MAX_FILE_SIZE ->
  signatureFaults 0 = None ->
  succeeds file faults ->
  route toLowerCase name (type file) (hex (slice file 0 4)) = Transcribe mimeType ->
  exists data,
    base64Data file faults = Some (Resolved data) /\
    processFile toLowerCase name file lecture signatureFaults faults =
      CallTranscribe data mimeType.
Proof.
  intros Hsize Hsignature Hreads Hroute.
  assert (Hdata : exists data, base64Data file faults = Some (Resolved data)).
  { unfold base64Data. destruct (size file >? CHUNK_THRESHOLD).
    - destruct (ShellFacts.readFileChunked_succeeds file faults Hreads) as [-> _].
      eexists. reflexivity.
    - unfold fileToBase64. rewrite (Hreads 0).
      + eexists. reflexivity.
      + unfold readsNeeded. lia. }
  destruct Hdata as [data Hdata]. exists data. split; [exact Hdata|].
  unfold processFile, getFileSignature.
  replace (size file >? MAX_FILE_SIZE) with false by (symmetry; rewrite Z.gtb_ltb; apply Z.ltb_ge; lia).
  rewrite Hsignature, Hroute, Hdata. reflexivity.
Qed.

(** X11.  A file recognised as audio by its content alone.  Take a file
    that [processFile] handles as a lecture, of at most 9 MiB, whose reads
    (of the signature and of the contents) all succeed.  When it starts
    with the bytes of "ID3" or with FF FB, with "RIFF", or with three zero
    bytes, its declared type neither starts with "audio/" nor is
    "application/pdf", and its name ends neither in ".lrec" nor in ".docx",
    [processFile] reaches its call of [transcribeAudio], with the base64
    text that the reader chosen by the size resolved with and with the
    media type "audio/mpeg", "audio/wav" or "audio/mp4" respectively, and
    for that media type the request carries the transcription
    instruction. *)
Theorem audio_by_content (file : File) (name : string)
    (signatureFaults faults : Faults) (pattern : list byte) (mimeType : string) :
  size file <= MAX_FILE_SIZE ->
  signatureFaults 0 = None ->
  succeeds file faults ->
  In (pattern, mimeType)
    [([x49; x44; x33], "audio/mpeg"); ([xff; xfb], "audio/mpeg");
     ([x52; x49; x46; x46], "audio/wav"); ([x00; x00; x00], "audio/mp4")] ->
  firstn (List.length pattern) (bytes file) = pattern ->
  startsWith (type file) "audio/" = false ->
  String.eqb (type file) "application/pdf" = false ->
  endsWith (toLowerCase name) ".lrec" = false ->
  isDocx name = false ->
  (exists data,
     base64Data file faults = Some (Resolved data) /\
     processFile toLowerCase name file lecture signatureFaults faults =
       CallTranscribe data mimeType) /\
  instruction mimeType = TRANSCRIPTION_SYSTEM_INSTRUCTION.
Proof.
  intros Hsize Hsignature Hreads Hin Hstart Haudio Hpdf Hlrec Hdocx.
  destruct (route_audio file name pattern mimeType Hin Hstart Haudio Hpdf Hlrec Hdocx)
    as [Hroute Hinstruction].
  split; [|exact Hinstruction].
  now apply processFile_transcribes.
Qed.

(** X12.  Take a file that [processFile] handles as a lecture, of at most
    9 MiB, whose reads (of the signature and of the contents) all succeed.
    When it starts with the bytes of "%PDF" and its name ends neither in
    ".lrec" nor in ".docx", [processFile] reaches its call of
    [transcribeAudio] with the media type "application/pdf", whatever type
    the file declares, and for that media type the request carries the
    document instruction, not the transcription one. *)
Theorem pdf_by_content (file : File) (name : string)
    (signatureFaults faults : Faults) :
  size file <= MAX_FILE_SIZE ->
  signatureFaults 0 = None ->
  succeeds file faults ->
  firstn 4 (bytes file) = [x25; x50; x44; x46] ->
  endsWith (toLowerCase name) ".lrec" = false ->
  isDocx name = false ->
  (exists data,
     base64Data file faults = Some (Resolved data) /\
     processFile toLowerCase name file lecture signatureFaults faults =
       CallTranscribe data "application/pdf") /\
  instruction "application/pdf" = DOCUMENT_SYSTEM_INSTRUCTION /\
  DOCUMENT_SYSTEM_INSTRUCTION <> TRANSCRIPTION_SYSTEM_INSTRUCTION.
Proof.
  intros Hsize Hsignature Hreads Hstart Hlrec Hdocx.
  destruct (route_pdf file name Hstart Hlrec Hdocx) as [Hroute Hinstruction].
  split; [now apply processFile_transcribes|].
  split; [exact Hinstruction|discriminate].
Qed.

End Routing.

Lemma audio_by_content_witness :
  (exists data,
     base64Data mp3 noFaults = Some (Resolved data) /\
     processFile asciiLower "lecture.mp3" mp3 lecture noFaults noFaults =
       CallTranscribe data "audio/mpeg") /\
  instruction "audio/mpeg" = TRANSCRIPTION_SYSTEM_INSTRUCTION.
Proof.
  apply (audio_by_content asciiLower mp3 "lecture.mp3" noFaults noFaults
           [x49; x44; x33] "audio/mpeg");
    try reflexivity.
  - unfold size, MAX_FILE_SIZE. cbn. lia.
  - intros k _. reflexivity.
  - left. reflexivity.
Defined.

Lemma pdf_by_content_witness :
  (exists data,
     base64Data pdf noFaults = Some (Resolved data) /\
     processFile asciiLower "notes" pdf lecture noFaults noFaults =
       CallTranscribe data "application/pdf") /\
  instruction "application/pdf" = DOCUMENT_SYSTEM_INSTRUCTION /\
  DOCUMENT_SYSTEM_INSTRUCTION <> TRANSCRIPTION_SYSTEM_INSTRUCTION.
Proof.
  apply (pdf_by_content asciiLower pdf "notes" noFaults noFaults);
    try reflexivity.
  - unfold size, MAX_FILE_SIZE. cbn. lia.
  - intros k _. reflexivity.
Defined.

(** The two files run through [processFile], and what becomes of a file
    above the limit, of an image and of a failed read. *)
Example processFile_mp3 :
  processFile asciiLower "lecture.mp3" mp3 lecture noFaults noFaults =
    CallTranscribe (Some "SUQzBAAA") "audio/mpeg".
Proof. reflexivity. Qed.

Example processFile_picture :
  processFile asciiLower "photo.png" picture image noFaults noFaults =
    ShowImage "data:image/png;base64,iVBORw==".
Proof. reflexivity. Qed.

Example processFile_unreadable :
  processFile asciiLower "lecture.mp3" mp3 lecture noFaults
    (fun _ => Some notReadable) = Caught notReadable /\
  processFile asciiLower "lecture.mp3" mp3 lecture
    (fun _ => Some notReadable) noFaults = Pending.
Proof. split; reflexivity. Qed.

End DetectionFacts.

(* ================================================================= *)
(** ** Properties of data URLs, of [cleanJson] and of the reads *)

Module TextFacts.

Import Js JsText Shell Service Detection Samples MoreSamples.

Local Open Scope Z_scope.

(** *** Splitting *)

Lemma includes_char (c : ascii) (text : string) :
  includes text (String c EmptyString) = hasChar c text.
Proof.
  induction text as [|h text IH]; [reflexivity|].
  cbn [includes hasChar String.prefix]. rewrite IH.
  destruct (ascii_dec c h) as [<-|Hne].
  - rewrite Ascii.eqb_refl. destruct text; reflexivity.
  - destruct (Ascii.eqb_spec h c) as [->|_]; [contradiction|].
    destruct text; reflexivity.
Qed.

Lemma hasChar_app (c : ascii) (s t : string) :
  hasChar c (s ++ t) = hasChar c s || hasChar c t.
Proof.
  induction s as [|h s IH]; cbn; [reflexivity|]. now rewrite IH, orb_assoc.
Qed.

Lemma splitOn_whole (sep : ascii) (text : string) :
  hasChar sep text = false -> splitOn sep text = [text].
Proof.
  induction text as [|c text IH]; cbn; [reflexivity|].
  intros H. apply orb_false_elim in H. destruct H as [Hc Hrest].
  now rewrite Hc, IH.
Qed.

Lemma splitOn_at (sep : ascii) (before after : string) :
  hasChar sep before = false ->
  splitOn sep (before ++ String sep after) = before :: splitOn sep after.
Proof.
  induction before as [|c before IH]; cbn.
  - intros _. now rewrite Ascii.eqb_refl.
  - intros H. apply orb_false_elim in H. destruct H as [Hc Hrest].
    now rewrite Hc, IH.
Qed.

Lemma hasComma_hasChar (text : string) : hasComma text = hasChar ","%char text.
Proof. induction text as [|c text IH]; cbn; [reflexivity|now rewrite IH]. Qed.

Lemma mediaType_clean (c : ascii) (file : File) :
  hasChar c "application/octet-stream" = false ->
  hasChar c (type file) = false ->
  hasChar c (mediaType file) = false.
Proof.
  intros Hdefault Htype. unfold mediaType.
  now destruct (String.eqb (type file) EmptyString).
Qed.

Lemma dataURL_pieces (file : File) :
  dataURL file =
  ("data" ++ String ":"%char (mediaType file)) ++
  String ";"%char ("base64" ++ String ","%char
                     (Base64.btoa (string_of_list_byte (bytes file)))).
Proof.
  unfold dataURL. fold (mediaType file).
  cbn. reflexivity.
Qed.

(** X13.  For a file whose type holds no comma, semicolon or colon, the
    two helpers of [generateVideo] take apart the data URL that
    [readAsDataURL] gives: [getBase64] returns the payload, which decodes
    to the bytes of the file, and [getMimeType] returns the type of the
    file, or "application/octet-stream" when it has none. *)
Theorem data_url_parts (file : File) :
  includes (type file) "," = false ->
  includes (type file) ";" = false ->
  includes (type file) ":" = false ->
  exists payload,
    getBase64 (dataURL file) = Some payload /\
    Base64.decode payload = Some (bytes file) /\
    getMimeType (dataURL file) =
      Some (if String.eqb (type file) EmptyString then "application/octet-stream"
            else type file).
Proof.
  rewrite !includes_char. intros Hcomma Hsemi Hcolon.
  exists (Base64.btoa (string_of_list_byte (bytes file))).
  split; [|split; [apply Base64Facts.decode_btoa|]].
  - unfold getBase64.
    replace (dataURL file)
      with ((("data" ++ String ":"%char (mediaType file)) ++
             String ";"%char "base64") ++
            String ","%char (Base64.btoa (string_of_list_byte (bytes file)))).
    + rewrite splitOn_at.
      * rewrite splitOn_whole; [reflexivity|].
        rewrite <- hasComma_hasChar. apply ShellFacts.btoa_no_comma.
      * rewrite !hasChar_app. cbn [hasChar].
        rewrite (mediaType_clean ","%char file eq_refl Hcomma). reflexivity.
    + rewrite dataURL_pieces, !ShellFacts.append_associative. reflexivity.
  - unfold getMimeType. rewrite dataURL_pieces, splitOn_at.
    + cbn [nth]. rewrite (splitOn_at ":"%char "data") by reflexivity.
      rewrite splitOn_whole by (apply mediaType_clean; [reflexivity|exact Hcolon]).
      reflexivity.
    + rewrite hasChar_app. cbn [hasChar].
      rewrite (mediaType_clean ";"%char file eq_refl Hsemi). reflexivity.
Qed.

(** X14.  In the image flow of [processFile], when the read succeeds and
    the type of the file holds no comma, the URL given to
    [setUploadedImage] is "data:", the type, ";base64," and the base64 of
    the bytes of the file; it is the data URL that the reader produced
    when the file has a type, and differs from it (an empty type instead
    of "application/octet-stream") when the file has none. *)
Theorem uploaded_image_url (file : File) (faults : Faults) :
  faults 0 = None ->
  includes (type file) "," = false ->
  uploadedImage file faults =
    Resolved ("data:" ++ type file ++ ";base64," ++
              Base64.btoa (string_of_list_byte (bytes file))) /\
  (type file <> EmptyString -> uploadedImage file faults = Resolved (dataURL file)) /\
  (type file = EmptyString -> uploadedImage file faults <> Resolved (dataURL file)).
Proof.
  intros Hread Htype.
  assert (Hurl : uploadedImage file faults =
            Resolved ("data:" ++ type file ++ ";base64," ++
                      Base64.btoa (string_of_list_byte (bytes file)))).
  { unfold uploadedImage, fileToBase64. rewrite Hread.
    now rewrite ShellFacts.split_dataURL. }
  split; [exact Hurl|]. rewrite Hurl. unfold dataURL. split.
  - intros Hne. apply String.eqb_neq in Hne. now rewrite Hne.
  - intros ->. cbn. discriminate.
Qed.

Lemma data_url_parts_witness :
  exists payload,
    getBase64 (dataURL picture) = Some payload /\
    Base64.decode payload = Some (bytes picture) /\
    getMimeType (dataURL picture) =
      Some (if String.eqb (type picture) EmptyString then "application/octet-stream"
            else type picture).
Proof.
  apply (data_url_parts picture); reflexivity.
Defined.

Lemma uploaded_image_url_witness :
  uploadedImage picture noFaults =
    Resolved ("data:" ++ type picture ++ ";base64," ++
              Base64.btoa (string_of_list_byte (bytes picture))) /\
  (type picture <> EmptyString ->
   uploadedImage picture noFaults = Resolved (dataURL picture)) /\
  (type picture = EmptyString ->
   uploadedImage picture noFaults <> Resolved (dataURL picture)).
Proof.
  apply (uploaded_image_url picture noFaults); reflexivity.
Defined.

(** *** [cleanJson] *)

Lemma length_app_string (a b : string) :
  String.length (a ++ b) = (String.length a + String.length b)%nat.
Proof. induction a as [|c a IH]; cbn; [reflexivity|now rewrite IH]. Qed.

Lemma substring_all (b : string) : String.substring 0 (String.length b) b = b.
Proof. induction b as [|c b IH]; cbn; [reflexivity|now rewrite IH]. Qed.

Lemma substring_skip (a b : string) :
  String.substring (String.length a) (String.length b) (a ++ b) = b.
Proof. induction a as [|c a IH]; cbn; [apply substring_all|exact IH]. Qed.

Lemma substring_take (a b : string) :
  String.substring 0 (String.length a) (a ++ b) = a.
Proof.
  induction a as [|c a IH]; cbn; [destruct b; reflexivity|now rewrite IH].
Qed.

Lemma after_start (a b : string) :
  String.substring (String.length a) (String.length (a ++ b) - String.length a) (a ++ b) = b.
Proof.
  rewrite length_app_string.
  replace (String.length a + String.length b - String.length a)%nat
    with (String.length b) by lia.
  apply substring_skip.
Qed.

Lemma endsWith_app (a b : string) : endsWith (a ++ b) b = true.
Proof.
  unfold endsWith. rewrite length_app_string.
  replace (String.length a + String.length b - String.length b)%nat
    with (String.length a) by lia.
  rewrite substring_skip, String.eqb_refl. cbn. apply Nat.leb_le. lia.
Qed.

Lemma dropLast_app (a b : string) : dropLast (String.length b) (a ++ b) = a.
Proof.
  unfold dropLast. rewrite length_app_string.
  replace (String.length a + String.length b - String.length b)%nat
    with (String.length a) by lia.
  apply substring_take.
Qed.

Lemma reverse_app (a b : string) : reverse (a ++ b) = reverse b ++ reverse a.
Proof.
  induction a as [|c a IH]; cbn.
  - now rewrite ShellFacts.append_empty_r.
  - now rewrite IH, ShellFacts.append_associative.
Qed.

Lemma reverse_involutive (a : string) : reverse (reverse a) = a.
Proof.
  induction a as [|c a IH]; cbn; [reflexivity|].
  rewrite reverse_app, IH. reflexivity.
Qed.

Lemma trimStart_blank (ws : string) : forall text,
  blank ws = true -> trimStart (ws ++ text) = trimStart text.
Proof.
  induction ws as [|c ws IH]; intros text H; [reflexivity|].
  cbn [blank] in H. apply andb_true_iff in H. destruct H as [Hc Hws].
  cbn [append trimStart]. cbn zeta. rewrite Hc. now apply IH.
Qed.

Lemma trimStartReversed_blank (ws : string) : forall text,
  blank ws = true -> trimStartReversed (ws ++ text) = trimStartReversed text.
Proof.
  induction ws as [|c ws IH]; intros text H; [reflexivity|].
  cbn [blank] in H. apply andb_true_iff in H. destruct H as [Hc Hws].
  cbn [append trimStartReversed]. cbn zeta. rewrite Hc. now apply IH.
Qed.

Lemma blank_reverse (ws : string) : blank ws = true -> blank (reverse ws) = true.
Proof.
  induction ws as [|c ws IH]; [reflexivity|].
  cbn [blank reverse]. intros H. apply andb_true_iff in H. destruct H as [Hc Hws].
  assert (Happ : forall a b, blank a = true -> blank b = true -> blank (a ++ b) = true).
  { induction a as [|h a IHa]; intros b Ha Hb; [exact Hb|].
    cbn [blank append] in *. apply andb_true_iff in Ha. destruct Ha as [Hh Ha].
    rewrite Hh. cbn. now apply IHa. }
  apply Happ; [now apply IH|]. cbn [blank]. now rewrite Hc.
Qed.

Lemma trimStart_backquote (rest : string) :
  trimStart (String "`"%char rest) = String "`"%char rest.
Proof. destruct rest as [|c2 [|c3 rest]]; reflexivity. Qed.

Lemma trimStartReversed_backquote (rest : string) :
  trimStartReversed (String "`"%char rest) = String "`"%char rest.
Proof.
  destruct rest as [|c2 [|c3 rest]]; cbn [trimStartReversed]; cbn zeta;
    change (N_of_ascii "`"%char) with 96%N;
    change (96 =? 160)%N with false; change (96 =? 128)%N with false;
    change (96 =? 159)%N with false; change (96 =? 191)%N with false;
    change (96 =? 168)%N with false; change (96 =? 169)%N with false;
    change (96 =? 175)%N with false; change (96 =? 32)%N with false;
    change (9 <=? 96)%N with true; change (96 <=? 13)%N with false;
    change (128 <=? 96)%N with false;
    cbn [andb orb]; rewrite ?andb_false_r; reflexivity.
Qed.

(** Trimming a text that is fenced and surrounded by blanks leaves the
    fenced text. *)
Lemma trim_fenced (before inner after : string) :
  blank before = true ->
  blank after = true ->
  trim (before ++ (fence ++ inner ++ fence) ++ after) = fence ++ inner ++ fence.
Proof.
  intros Hb Ha. unfold trim, trimEnd.
  rewrite trimStart_blank by exact Hb.
  replace ((fence ++ inner ++ fence) ++ after)
    with (String "`"%char ("``" ++ (inner ++ fence) ++ after))
    by (cbn; now rewrite !ShellFacts.append_associative).
  rewrite trimStart_backquote.
  replace (String "`"%char ("``" ++ (inner ++ fence) ++ after))
    with ((fence ++ inner ++ "``") ++ String "`"%char after).
  2:{ cbn. rewrite !ShellFacts.append_associative. reflexivity. }
  rewrite reverse_app. cbn [reverse].
  rewrite ShellFacts.append_associative. cbn [append].
  rewrite trimStartReversed_blank by (now apply blank_reverse).
  rewrite trimStartReversed_backquote.
  change (String "`"%char (reverse (fence ++ inner ++ "``")))
    with (reverse "`" ++ reverse (fence ++ inner ++ "``")).
  rewrite <- reverse_app, reverse_involutive.
  rewrite !ShellFacts.append_associative. reflexivity.
Qed.

Lemma startsWith_app (a b : string) : startsWith (a ++ b) a = true.
Proof.
  unfold startsWith. induction a as [|c a IH]; cbn [append String.prefix].
  - apply LiveFacts.prefix_empty.
  - destruct (ascii_dec c c) as [_|H]; [exact IH|contradiction].
Qed.

(** X15.  [cleanJson] unwraps a fenced answer: for a text made of an
    opening fence of three backquotes, with or without the word "json", a
    line feed, a body, a line feed and a closing fence, the whole possibly
    surrounded by ASCII white space, it returns the body, whatever the
    body is. *)
Theorem cleanJson_unwraps (before after tag body : string) :
  blank before = true ->
  blank after = true ->
  tag = "json" \/ tag = EmptyString ->
  cleanJson (before ++ (fence ++ (tag ++ String LF body ++ String LF EmptyString) ++ fence)
             ++ after) = body.
Proof.
  intros Hb Ha Htag. unfold cleanJson.
  rewrite trim_fenced by assumption.
  rewrite startsWith_app. unfold dropOpeningFence.
  set (inner := (tag ++ String LF body ++ String LF EmptyString) ++ fence).
  replace (String.substring 3 (String.length (fence ++ inner) - 3) (fence ++ inner))
    with inner by (symmetry; exact (after_start fence inner)).
  assert (Hinner : inner = tag ++ String LF (body ++ String LF fence)).
  { unfold inner. rewrite !ShellFacts.append_associative. reflexivity. }
  assert (Hrest : (if startsWith inner "json"
                   then String.substring 4 (String.length inner - 4) inner
                   else inner) = String LF (body ++ String LF fence)).
  { rewrite Hinner. destruct Htag as [-> | ->].
    - rewrite startsWith_app.
      exact (after_start "json" (String LF (body ++ String LF fence))).
    - cbn [append]. unfold startsWith. cbn [String.prefix].
      destruct (ascii_dec "j"%char LF) as [H|_]; [discriminate H|reflexivity]. }
  rewrite Hrest. rewrite Ascii.eqb_refl.
  unfold dropClosingFence.
  rewrite (endsWith_app body (String LF fence)).
  exact (dropLast_app body (String LF fence)).
Qed.

Lemma cleanJson_unwraps_witness :
  cleanJson ("  " ++ (fence ++ ("json" ++ String LF "[1,2]" ++ String LF EmptyString)
                      ++ fence) ++ String LF EmptyString) = "[1,2]".
Proof.
  apply (cleanJson_unwraps "  " (String LF EmptyString) "json" "[1,2]").
  - reflexivity.
  - reflexivity.
  - left. reflexivity.
Defined.

(** *** The reads of the chunked reader *)

(** The blobs read from chunk [k] on. *)
Lemma readFrom_blobs (fuel : nat) : forall file faults k resultParts,
  0 <= k ->
  (1 <= fuel)%nat ->
  chunkCount file - k <= Z.of_nat fuel ->
  (forall j, k <= j < Z.max (k + 1) (chunkCount file) -> faults j = None) ->
  List.concat resultParts = firstn (Z.to_nat (k * chunkSize)) (bytes file) ->
  let run := readFrom fuel file faults k resultParts in
  blobs (fst run) =
    map (fun i => ((k + Z.of_nat i) * chunkSize,
                   Z.min ((k + Z.of_nat i) * chunkSize + chunkSize) (size file)))
      (seq 0 (Z.to_nat (Z.max 1 (chunkCount file - k)))) /\
  (List.concat resultParts ++
   List.concat (map (fun b => slice file (fst b) (snd b)) (blobs (fst run))))%list =
    bytes file /\
  S (yields (fst run)) = List.length (blobs (fst run)).
Proof.
  pose proof ShellFacts.chunkSize_pos as HC.
  induction fuel as [|fuel IH];
    intros file faults k resultParts Hk Hfuel Hleft Hok Hparts; [lia|].
  cbn zeta. cbn [readFrom].
  rewrite (Hok k) by lia.
  destruct (k + 1 <? chunkCount file) eqn:Hmore.
  - apply Z.ltb_lt in Hmore.
    unfold andThen. cbn [fst snd app blobs yields].
    destruct (IH file faults (k + 1) (resultParts ++ [
      slice file (k * chunkSize) (Z.min (k * chunkSize + chunkSize) (size file))])%list)
      as (Hblobs & Hcover & Hyields); try lia.
    + intros j Hj. apply Hok. lia.
    + rewrite concat_app, Hparts, ShellFacts.slice_inner by lia. cbn [List.concat].
      rewrite app_nil_r, <- ShellFacts.firstn_plus. f_equal. lia.
    + cbn zeta in Hblobs, Hcover, Hyields. split; [|split].
      * rewrite Hblobs.
        replace (Z.to_nat (Z.max 1 (chunkCount file - k)))
          with (S (Z.to_nat (Z.max 1 (chunkCount file - (k + 1))))) by lia.
        cbn [seq map]. f_equal.
        -- f_equal; [f_equal; lia|]. f_equal. lia.
        -- rewrite <- seq_shift, map_map. apply map_ext. intros i.
           f_equal; [f_equal; lia|]. f_equal. lia.
      * cbn [map List.concat fst snd].
        rewrite concat_app in Hcover. cbn [List.concat] in Hcover.
        rewrite app_nil_r, <- app_assoc in Hcover. exact Hcover.
      * cbn [List.length]. now rewrite Hyields.
  - apply Z.ltb_ge in Hmore. cbn [fst snd blobs yields map List.concat List.length].
    split; [|split; [|reflexivity]].
    + replace (Z.to_nat (Z.max 1 (chunkCount file - k))) with 1%nat by lia.
      cbn [seq map]. f_equal. f_equal; [f_equal; lia|]. f_equal. lia.
    + rewrite Hparts, ShellFacts.slice_last by lia.
      rewrite app_nil_r. apply firstn_skipn.
Qed.

(** The events of read [k + i], where the reads go on from chunk [k]. *)
Lemma chunkEvents_at (file : File) (k : Z) (i : nat) :
  0 <= k ->
  chunkEvents file (Z.to_nat (readsNeeded file)) (Z.to_nat k + i) =
  ([ReadBlob ((k + Z.of_nat i) * chunkSize)
      (Z.min ((k + Z.of_nat i) * chunkSize + chunkSize) (size file));
    Report (percent (k + Z.of_nat i + 1) (chunkCount file))] ++
   (if k + Z.of_nat i + 1 <? chunkCount file then [Yield] else []))%list.
Proof.
  intros Hk. unfold chunkEvents.
  replace (Z.of_nat (Z.to_nat k + i)) with (k + Z.of_nat i) by lia.
  f_equal.
  destruct (k + Z.of_nat i + 1 <? chunkCount file) eqn:Hmore.
  - apply Z.ltb_lt in Hmore.
    replace (S (Z.to_nat k + i) <? Z.to_nat (readsNeeded file))%nat with true;
      [reflexivity|].
    symmetry. apply Nat.ltb_lt. unfold readsNeeded. lia.
  - apply Z.ltb_ge in Hmore.
    replace (S (Z.to_nat k + i) <? Z.to_nat (readsNeeded file))%nat with false;
      [reflexivity|].
    symmetry. apply Nat.ltb_ge. unfold readsNeeded. lia.
Qed.

(** The events of the reads from chunk [k] on, in order. *)
Lemma readFrom_events (fuel : nat) : forall file faults k resultParts,
  0 <= k ->
  (1 <= fuel)%nat ->
  chunkCount file - k <= Z.of_nat fuel ->
  (forall j, k <= j < Z.max (k + 1) (chunkCount file) -> faults j = None) ->
  fst (readFrom fuel file faults k resultParts) =
    List.concat
      (map (fun i => chunkEvents file (Z.to_nat (readsNeeded file)) (Z.to_nat k + i))
         (seq 0 (Z.to_nat (Z.max 1 (chunkCount file - k))))).
Proof.
  induction fuel as [|fuel IH];
    intros file faults k resultParts Hk Hfuel Hleft Hok; [lia|].
  cbn [readFrom]. cbn zeta.
  rewrite (Hok k) by lia.
  destruct (k + 1 <? chunkCount file) eqn:Hmore.
  - pose proof Hmore as Hlt. apply Z.ltb_lt in Hlt.
    unfold andThen. cbn [fst].
    rewrite IH; try lia; [|intros j Hj; apply Hok; lia].
    replace (Z.to_nat (Z.max 1 (chunkCount file - k)))
      with (S (Z.to_nat (Z.max 1 (chunkCount file - (k + 1))))) by lia.
    cbn [seq map List.concat].
    rewrite (chunkEvents_at file k 0 Hk).
    replace (k + Z.of_nat 0) with k by lia.
    rewrite Hmore.
    cbn [app]. do 3 f_equal.
    rewrite <- seq_shift, map_map. f_equal. apply map_ext. intros i.
    f_equal. lia.
  - pose proof Hmore as Hge. apply Z.ltb_ge in Hge.
    replace (Z.to_nat (Z.max 1 (chunkCount file - k))) with 1%nat by lia.
    cbn [fst seq map List.concat].
    rewrite (chunkEvents_at file k 0 Hk).
    replace (k + Z.of_nat 0) with k by lia.
    rewrite Hmore. reflexivity.
Qed.

(** X16.  When no read fails, the run of the chunked reader is, chunk
    after chunk, the read of the blob [i C, min((i + 1) C, size)), then
    the report of [round((i + 1) / chunks * 40)], then, unless the chunk
    is the last one, one yield to the event loop, and nothing else (the
    empty file has one read, of the empty blob).  So the blobs
    [0, C), [C, 2 C), ... are read in this order up to the end of the
    file, each read but the last is followed by one yield, and the
    blobs read, one after the other, are the bytes of the file: nothing is
    read twice and nothing is left out. *)
Theorem reads_cover_file (file : File) (faults : Faults) :
  succeeds file faults ->
  let run := readFileChunked file faults in
  fst run = expectedEvents file /\
  blobs (fst run) =
    map (fun i => (Z.of_nat i * chunkSize,
                   Z.min (Z.of_nat i * chunkSize + chunkSize) (size file)))
      (seq 0 (Z.to_nat (readsNeeded file))) /\
  List.concat (map (fun b => slice file (fst b) (snd b)) (blobs (fst run))) =
    bytes file /\
  S (yields (fst run)) = List.length (blobs (fst run)).
Proof.
  intros Hok. pose proof (ShellFacts.chunkCount_nonneg file).
  split.
  - unfold readFileChunked, expectedEvents.
    rewrite readFrom_events; try lia.
    + unfold readsNeeded.
      replace (chunkCount file - 0) with (chunkCount file) by lia.
      reflexivity.
    + intros j Hj. apply Hok. unfold readsNeeded. lia.
  - destruct (readFrom_blobs (S (Z.to_nat (chunkCount file))) file faults 0 [])
      as (Hblobs & Hcover & Hyields); try lia.
    + intros j Hj. apply Hok. unfold readsNeeded. lia.
    + reflexivity.
    + cbn zeta in *. fold (readFileChunked file faults) in Hblobs, Hcover, Hyields.
      split; [|split; assumption].
      rewrite Hblobs. unfold readsNeeded.
      replace (chunkCount file - 0) with (chunkCount file) by lia.
      apply map_ext. intros i. reflexivity.
Qed.

Lemma reads_cover_file_witness :
  let run := readFileChunked lecture3 noFaults in
  fst run = expectedEvents lecture3 /\
  blobs (fst run) =
    map (fun i => (Z.of_nat i * chunkSize,
                   Z.min (Z.of_nat i * chunkSize + chunkSize) (size lecture3)))
      (seq 0 (Z.to_nat (readsNeeded lecture3))) /\
  List.concat (map (fun b => slice lecture3 (fst b) (snd b)) (blobs (fst run))) =
    bytes lecture3 /\
  S (yields (fst run)) = List.length (blobs (fst run)).
Proof.
  apply (reads_cover_file lecture3 noFaults). intros k _. reflexivity.
Defined.

(** The events of that run: three reads, the first two followed by a
    yield. *)
Example lecture3_events :
  expectedEvents lecture3 =
    [ReadBlob 0 1048576; Report (Finite 13); Yield;
     ReadBlob 1048576 2097152; Report (Finite 27); Yield;
     ReadBlob 2097152 2097153; Report (Finite 40)].
Proof.
  unfold expectedEvents, readsNeeded.
  rewrite ShellFacts.chunkCount_lecture3.
  cbn [Z.max Z.compare Pos.compare Pos.compare_cont Z.to_nat Pos.to_nat
       Pos.iter_op Nat.add seq map List.concat].
  unfold chunkEvents.
  rewrite ShellFacts.chunkCount_lecture3, ShellFacts.size_lecture3.
  reflexivity.
Qed.

(** The run of a small file, evaluated. *)
Example greeting_events :
  fst (readFileChunked greeting noFaults) = expectedEvents greeting /\
  expectedEvents greeting = [ReadBlob 0 12; Report (Finite 40)].
Proof. split; reflexivity. Qed.

End TextFacts.
